(** * cuip.hadoop.hic: per-channel means of stacked raw images

    A shallow embedding of [src/cuip/hadoop/hic.py] (class
    [HadoopImageCluster], method [mean] and its closures [_mean] and
    [_perDim]) together with the few numpy / posixpath primitives the
    method calls, and the properties of the decode-and-reduce pipeline.

    Conventions of the embedding.
    - A file's content is a [list byte]: [np.asarray(bytearray(y),
      dtype=np.uint8)] yields one unsigned 8-bit sample per byte.
    - Geometry arguments ([n], [nrows], [ncols], [ndims]) are natural
      numbers.
    - Python exceptions are values [Raise e] of the [result] monad.
    - A [np.float64] is either [NaN] or [Val q] with [q] the rational value
      of the binary64 number, in lowest terms.  [np.mean] accumulates the
      samples in a 64-bit float accumulator and divides by the number of
      items: the division rounds to the nearest binary64 number, ties to
      even ([np.div64]); the accumulated sum is a whole number, exact in
      binary64 as long as it stays below [2^53], that is for fewer than
      [2^45] samples.
    - An RDD is the list of its elements, each one the (possibly failing)
      evaluation of that element; Spark's scheduling is not represented. *)

From Stdlib Require Import QArith Qreduction.
From Stdlib Require Qcanon.
From Stdlib.Strings Require Import Byte String Ascii.
From stdpp Require Import base list.

Close Scope Q_scope.
Local Open Scope nat_scope.

(** ** Exceptions and the error monad *)

(** The two Python exceptions the pipeline can raise: [ValueError] is what
    [ndarray.reshape] raises on a size mismatch, [IndexError] is what list
    indexing raises out of range. *)
Inductive exception : Set :=
| ValueError
| IndexError.

Inductive result (A : Type) : Type :=
| Ok (a : A)
| Raise (e : exception).
Arguments Ok {A} a.
Arguments Raise {A} e.

#[global] Instance result_ret : MRet result := fun A a => Ok a.
#[global] Instance result_bind : MBind result := fun A B f m =>
  match m with
  | Ok a => f a
  | Raise e => Raise e
  end.
#[global] Instance result_fmap : FMap result := fun A B f m =>
  match m with
  | Ok a => Ok (f a)
  | Raise e => Raise e
  end.

(** ** Floating-point values *)

Inductive float64 : Set :=
| NaN
| Val (q : Q).

(** ** Python built-ins *)

Module py.

(** [l[i]] for a list [l] and a non-negative index [i]. *)
Definition getitem {A} (l : list A) (i : nat) : result A :=
  match l !! i with
  | Some a => Ok a
  | None => Raise IndexError
  end.

(** [float(v)] on a [np.float64]. *)
Definition float (v : float64) : float64 := v.

(** [p.rfind(c)]: the highest index of [c] in [p], or [-1]. *)
Fixpoint rfind (c : ascii) (p : string) : Z :=
  match p with
  | EmptyString => (-1)%Z
  | String a rest =>
      let r := rfind c rest in
      if (0 <=? r)%Z then (r + 1)%Z
      else if Ascii.eqb a c then 0%Z else (-1)%Z
  end.

(** [p[i:]] for a string [p] and a non-negative index [i]. *)
Fixpoint str_from (i : nat) (p : string) : string :=
  match i, p with
  | O, _ => p
  | S _, EmptyString => EmptyString
  | S j, String _ rest => str_from j rest
  end.

(** [os.path.basename] (posixpath):
    [i = p.rfind('/') + 1; return p[i:]]. *)
Definition basename (p : string) : string :=
  let i := (rfind "/" p + 1)%Z in
  str_from (Z.to_nat i) p.

(** [p.startswith(c)] and [p.endswith(c)] for a one-character [c]. *)
Definition startswith (p : string) (c : ascii) : bool :=
  match p with
  | EmptyString => false
  | String a _ => Ascii.eqb a c
  end.

Fixpoint endswith (p : string) (c : ascii) : bool :=
  match p with
  | EmptyString => false
  | String a EmptyString => Ascii.eqb a c
  | String _ rest => endswith rest c
  end.

(** [os.path.join(a, b)] (posixpath, two components):
    [if b.startswith('/'): path = b
     elif path == '' or path.endswith('/'): path += b
     else: path += '/' + b]. *)
Definition join (a b : string) : string :=
  if startswith b "/" then b
  else if String.eqb a EmptyString || endswith a "/" then String.append a b
  else String.append a (String.append "/" b).

End py.

(** ** numpy primitives *)

Module np.

(** A three-dimensional [uint8] array: its shape and its items in nested
    (row, column, channel) order. *)
Record ndarray3 : Set := mk_ndarray3 {
  shape : nat * nat * nat;
  items : list (list (list byte))
}.

(** [np.asarray(bytearray(y), dtype=np.uint8)]. *)
Definition asarray (y : list byte) : list byte := y.

(** [x[a:b]] on a one-dimensional array, for non-negative [a] and [b]:
    the elements at the indices [a <= i < min b (len x)]. *)
Definition slice (x : list byte) (a b : nat) : list byte :=
  take (b - a) (drop a x).

(** [cnt] consecutive pieces of [m] elements each. *)
Fixpoint chunks {A} (cnt m : nat) (l : list A) : list (list A) :=
  match cnt with
  | O => []
  | S cnt' => take m l :: chunks cnt' m (drop m l)
  end.

(** [x.reshape(r, c, d)] in C (row-major) order; raises [ValueError]
    when the sizes disagree. *)
Definition reshape (x : list byte) (r c d : nat) : result ndarray3 :=
  if decide (length x = r * c * d)
  then Ok {| shape := (r, c, d);
             items := (fun row : list byte => chunks c d row) <$> chunks r (c * d) x |}
  else Raise ValueError.

(** [img[:,:,d]]: the two-dimensional array of channel [d]. *)
Definition channel (img : ndarray3) (d : nat) : result (list (list byte)) :=
  let '(_, _, dims) := shape img in
  if decide (d < dims)
  then Ok ((fun row : list (list byte) =>
              (fun px : list byte => default x00 (px !! d)) <$> row) <$> items img)
  else Raise IndexError.

(** [img.ravel()]. *)
Definition ravel (img : ndarray3) : list byte :=
  concat (concat (items img)).

(** The sum of the samples, widened. *)
Definition sum (xs : list byte) : Z :=
  foldr (fun b acc => (Z.of_N (Byte.to_N b) + acc)%Z) 0%Z xs.

(** [a / b] rounded to the nearest whole number, ties to the even one, for
    [0 <= a] and [0 < b]. *)
Definition round_half_even (a b : Z) : Z :=
  let q := (a / b)%Z in
  let r := (a mod b)%Z in
  if (2 * r <? b)%Z then q
  else if (b <? 2 * r)%Z then (q + 1)%Z
  else if Z.even q then q else (q + 1)%Z.

(** The binary scale of a quotient [s / c] with [0 < s / c < 2^53]: the [t]
    with [2^52 <= s / c * 2^t < 2^53], so that the binary64 numbers around
    [s / c] are the multiples of [2^(-t)] (53 significant bits); capped at
    1074, the scale of the subnormal numbers. *)
Definition scale64 (s c : Z) : Z :=
  let d := (52 + Z.log2 c - Z.log2 s)%Z in
  let t := if (2 ^ 52 * c <=? s * 2 ^ d)%Z then d else (d + 1)%Z in
  Z.min t 1074.

(** The binary64 division [s / c] of two whole numbers held exactly, for
    [0 <= s], [0 < c] and [s / c < 2^53]: the quotient rounded to the
    nearest binary64 number, ties to even. *)
Definition div64 (s c : Z) : Q :=
  if (s =? 0)%Z then 0%Q
  else
    let t := scale64 s c in
    Qred (round_half_even (s * 2 ^ t) c # Z.to_pos (2 ^ t)).

(** The mean of a flat sequence of [uint8] samples: their sum divided, in
    binary64, by their number; [nan] when there is none. *)
Definition mean_flat (xs : list byte) : float64 :=
  match length xs with
  | O => NaN
  | S _ => Val (div64 (sum xs) (Z.of_nat (length xs)))
  end.

(** [np.mean(a)] of a two-dimensional [uint8] array (no axis given): the
    mean of all its items. *)
Definition mean (a : list (list byte)) : float64 :=
  mean_flat (concat a).

(** [img[r, c, d]] for indices within the shape. *)
Definition item (img : ndarray3) (r c d : nat) : option byte :=
  row ← items img !! r; px ← row !! c; px !! d.

End np.

(** ** Resilient distributed datasets and data frames *)

Abbreviation rdd A := (list (result A)).

Definition rdd_map {A B} (f : A → result B) (r : rdd A) : rdd B :=
  (fun e : result A => e ≫= f) <$> r.

Definition mapValues {K V W} (f : V → result W) (r : rdd (K * V)) : rdd (K * W) :=
  rdd_map (fun kv => w ← f kv.2; mret (kv.1, w)) r.

(** A row of the schema [Filename, CH0, CH1, CH2]. *)
Record Row : Set := mk_Row {
  Filename : string;
  CH0 : float64;
  CH1 : float64;
  CH2 : float64
}.

Definition createDataFrame (r : rdd (string * float64 * float64 * float64)) : rdd Row :=
  rdd_map (fun t => let '(f, c0, c1, c2) := t in mret (mk_Row f c0 c1 c2)) r.

(** ** HadoopImageCluster *)

Module hic.

Record HadoopImageCluster : Type := {
  img_rdd : rdd (string * list byte)
}.

(** The path [_getImgRDD] asks [sc.binaryFiles] for, with [path] and
    [fname_ext] strings and [fname] a string or [None], as its docstring
    has them; [None] and the empty string count as false in the condition:
    [if fname: os.path.join(path, fname)
     else: os.path.join(path, "*."+fname_ext)]. *)
Definition imgpair_path (path : string) (fname : option string)
    (fname_ext : string) : string :=
  match fname with
  | Some (String a f) => py.join path (String a f)
  | Some EmptyString | None => py.join path (String.append "*." fname_ext)
  end.

(** [_getImgRDD], applied to the pairs [sc.binaryFiles] delivers. *)
Definition _getImgRDD (imgpair : list (string * list byte)) : rdd (string * list byte) :=
  (fun xy => Ok (xy.1, np.asarray xy.2)) <$> imgpair.

Definition new (imgpair : list (string * list byte)) : HadoopImageCluster :=
  {| img_rdd := _getImgRDD imgpair |}.

(** [_perDim]: the mean of every channel of one image. *)
Definition _perDim (img : np.ndarray3) (ndims : nat) : result (list float64) :=
  mapM (fun d => ch ← np.channel img d; mret (np.mean ch)) (seq 0 ndims).

Section Mean.

Variables n nrows ncols ndims : nat.

(** The [i]-th stacked image:
    [x[i*nrows*ncols*ndims : (i+1)*nrows*ncols*ndims].reshape(nrows, ncols, ndims)]. *)
Definition block (x : list byte) (i : nat) : result np.ndarray3 :=
  np.reshape
    (np.slice x (i * nrows * ncols * ndims) ((i + 1) * nrows * ncols * ndims))
    nrows ncols ndims.

(** [_mean]: the means of all stacked images and their channels. *)
Definition _mean (x : list byte) : result (list (list float64)) :=
  mapM (fun i => img ← block x i; _perDim img ndims) (seq 0 n).

(** The decoding half of [_mean] on its own: all [n] stacked images. *)
Definition decode (x : list byte) : result (list np.ndarray3) :=
  mapM (block x) (seq 0 n).

(** One requested column, [float(x[1][b][c])]. *)
Definition column (m : list (list float64)) (b c : nat) : result float64 :=
  blk ← py.getitem m b; v ← py.getitem blk c; mret (py.float v).

(** The lambda of [mean_formatted]. *)
Definition format (x : string * list (list float64))
  : result (string * float64 * float64 * float64) :=
  let f := py.basename x.1 in
  c0 ← column x.2 0 1;
  c1 ← column x.2 1 1;
  c2 ← column x.2 2 1;
  mret (f, c0, c1, c2).

Inductive mean_output : Type :=
| AsRDD (r : rdd (string * list (list float64)))
| AsDF (df : rdd Row).

Definition mean (self : HadoopImageCluster) (asdf : bool) : mean_output :=
  let mean_rdd := mapValues _mean (img_rdd self) in
  if negb asdf then AsRDD mean_rdd
  else
    let mean_formatted := rdd_map format mean_rdd in
    AsDF (createDataFrame mean_formatted).

(** *** Vocabulary of the properties *)

(** The number of samples of one stacked image. *)
Definition block_size : nat := nrows * ncols * ndims.

(** The sample range [[i * block_size, (i+1) * block_size)] of a buffer. *)
Definition sample_range (x : list byte) (i : nat) : list byte :=
  take block_size (drop (i * block_size) x).

(** The samples of channel [d] of stacked image [i], read directly from the
    buffer: pixel [p] of the image has its channel [d] at offset
    [i * block_size + p * ndims + d]. *)
Definition channel_samples (x : list byte) (i d : nat) : list byte :=
  (fun p => default x00 (x !! (i * block_size + p * ndims + d)))
    <$> seq 0 (nrows * ncols).

Definition channel_mean (x : list byte) (i d : nat) : float64 :=
  np.mean_flat (channel_samples x i d).

(** The full matrix of channel means, one row per stacked image. *)
Definition means_matrix (x : list byte) : list (list float64) :=
  (fun i => (fun d => channel_mean x i d) <$> seq 0 ndims) <$> seq 0 n.

(** What the data frame holds for one file [(identifier, content)]:
    [_mean], then the lambda of [mean_formatted], then the row. *)
Definition df_row (xy : string * list byte) : result Row :=
  m ← _mean xy.2;
  t ← format (xy.1, m);
  let '(f, c0, c1, c2) := t in mret (mk_Row f c0 c1 c2).

(** [v] is the mean [_perDim] computes for channel [d] of the [i]-th
    decoded image of the buffer. *)
Definition block_channel_mean (x : list byte) (i d : nat) (v : float64) : Prop :=
  ∃ blocks img ms,
    decode x = Ok blocks ∧ blocks !! i = Some img ∧
    _perDim img ndims = Ok ms ∧ ms !! d = Some v.

End Mean.

End hic.
Export hic.

(** The total of the samples [xs]. *)
Definition total (xs : list byte) : nat :=
  sum_list_with (fun b => N.to_nat (Byte.to_N b)) xs.

(** [q] is the arithmetic mean of the samples [xs]. *)
Definition is_arith_mean (xs : list byte) (q : Q) : Prop :=
  (q * inject_Z (Z.of_nat (length xs)) == inject_Z (Z.of_nat (total xs)))%Q.

(** [q] is the binary64 number nearest to [s / c], ties to even: [q] is
    [m / 2^t] for whole numbers [m] and [t], where the scale [t] is the one
    that brings [s / c * 2^t] into [[2^52, 2^53)] (or is 1074 for a quotient
    below the normal range), [m] differs from [s / c * 2^t] by at most a
    half, and [m] is even when it differs by exactly a half. *)
Definition is_float64_quotient (s c : Z) (q : Q) : Prop :=
  ∃ t m : Z,
    (0 ≤ t ≤ 1074)%Z ∧ (0 ≤ m)%Z ∧
    (q * inject_Z (2 ^ t) == inject_Z m)%Q ∧
    (s * 2 ^ t < 2 ^ 53 * c)%Z ∧
    (2 ^ 52 * c ≤ s * 2 ^ t ∨ t = 1074)%Z ∧
    (Z.abs (2 * (m * c - s * 2 ^ t)) ≤ c)%Z ∧
    (Z.abs (2 * (m * c - s * 2 ^ t)) = c → Z.even m = true)%Z.

(** [q] is the arithmetic mean of the samples [xs] rounded to binary64. *)
Definition is_float64_mean (xs : list byte) (q : Q) : Prop :=
  is_float64_quotient (Z.of_nat (total xs)) (Z.of_nat (length xs)) q.

(** * Properties *)

(** ** The error monad over lists *)

Section MapM.

Context {A B : Type}.
Implicit Types (f : A → result B) (l : list A).

Lemma mapM_Ok_fmap f (g : A → B) l :
  (∀ x, x ∈ l → f x = Ok (g x)) → mapM f l = Ok (g <$> l).
Proof.
  induction l as [|a l IH]; intros Hf; [reflexivity|].
  cbn. rewrite (Hf a) by left. cbn.
  rewrite IH; [reflexivity|]. intros x Hx. apply Hf. by right.
Qed.

Lemma mapM_Ok_length f l k : mapM f l = Ok k → length k = length l.
Proof.
  revert k. induction l as [|a l IH]; intros k; cbn.
  - intros [= <-]. reflexivity.
  - destruct (f a) as [b|e]; cbn; [|discriminate].
    destruct (mapM f l) as [k'|e]; cbn; [|discriminate].
    intros [= <-]. cbn. f_equal. by apply IH.
Qed.

Lemma mapM_Ok_lookup f l k i a :
  mapM f l = Ok k → l !! i = Some a → ∃ b, k !! i = Some b ∧ f a = Ok b.
Proof.
  revert k i. induction l as [|a' l IH]; intros k i; cbn; [by intros _ ?|].
  destruct (f a') as [b|e] eqn:Hfa; cbn; [|discriminate].
  destruct (mapM f l) as [k'|e]; cbn; [|discriminate].
  intros [= <-]. destruct i as [|i]; cbn.
  - intros [= <-]. eauto.
  - intros Hi. by apply IH.
Qed.

Lemma mapM_Raise f l e :
  (∀ x, x ∈ l → f x = Raise e ∨ ∃ y, f x = Ok y) →
  (∃ x, x ∈ l ∧ f x = Raise e) →
  mapM f l = Raise e.
Proof.
  induction l as [|a l IH]; intros Hall [x [Hx Hfx]].
  - by apply elem_of_nil in Hx.
  - cbn. destruct (Hall a) as [Ha|[y Ha]]; [by left| |]; rewrite Ha; cbn; [reflexivity|].
    rewrite IH; [reflexivity| |].
    + intros z Hz. apply Hall. by right.
    + apply elem_of_cons in Hx as [->|Hx]; [congruence|eauto].
Qed.

Lemma mapM_Ok_exists f l :
  (∀ x, x ∈ l → ∃ y, f x = Ok y) → ∃ k, mapM f l = Ok k.
Proof.
  induction l as [|a l IH]; intros Hf; [by eexists|].
  destruct (Hf a) as [y Hy]; [by left|].
  destruct IH as [k Hk]; [intros x Hx; apply Hf; by right|].
  exists (y :: k). cbn. rewrite Hy. cbn. by rewrite Hk.
Qed.

Lemma mapM_ext f1 f2 l :
  (∀ x, x ∈ l → f1 x = f2 x) → mapM f1 l = mapM f2 l.
Proof.
  induction l as [|a l IH]; intros Hf; [reflexivity|].
  cbn. rewrite (Hf a) by left. rewrite IH; [reflexivity|].
  intros x Hx. apply Hf. by right.
Qed.

End MapM.

Lemma mapM_bind_split {A B C} (f : A → result B) (g : B → result C) (l : list A) :
  (∀ x b, x ∈ l → f x = Ok b → ∃ y, g b = Ok y) →
  mapM (fun x => b ← f x; g b) l = mapM f l ≫= mapM g.
Proof.
  induction l as [|a l IH]; intros Hg; [reflexivity|].
  cbn. destruct (f a) as [b|e] eqn:Hfa; cbn; [|reflexivity].
  destruct (Hg a b) as [y Hy]; [by left|done|].
  rewrite Hy. cbn. rewrite IH by (intros x b' Hx; apply Hg; by right).
  destruct (mapM f l) as [ks|e]; cbn; [|reflexivity].
  by rewrite Hy.
Qed.


(** ** Slicing and reshaping *)

Lemma offset_lt (a b m n : nat) : a < m → b < n → a * n + b < m * n.
Proof. intros Ha Hb. nia. Qed.

Ltac offsets :=
  unfold block_size; repeat first [done | lia | apply offset_lt].

Section Chunks.

Context {A : Type}.
Implicit Types (l : list A) (cnt m : nat).

Lemma chunks_length cnt m l : length (np.chunks cnt m l) = cnt.
Proof. revert l. induction cnt as [|cnt IH]; intros l; cbn; [done|by rewrite IH]. Qed.

Lemma chunks_lookup cnt m l i :
  i < cnt → np.chunks cnt m l !! i = Some (take m (drop (i * m) l)).
Proof.
  revert l i. induction cnt as [|cnt IH]; intros l i Hi; [lia|].
  destruct i as [|i]; cbn; [done|].
  rewrite IH by lia. by rewrite drop_drop.
Qed.

Lemma chunks_seq cnt m l :
  np.chunks cnt m l = (fun p => take m (drop (p * m) l)) <$> seq 0 cnt.
Proof.
  apply list_eq. intros i. destruct (decide (i < cnt)) as [Hi|Hi].
  - rewrite chunks_lookup by done.
    rewrite list_lookup_fmap, lookup_seq_lt by done. reflexivity.
  - rewrite !lookup_ge_None_2; [done| |].
    + rewrite length_fmap, length_seq. lia.
    + rewrite chunks_length. lia.
Qed.

Lemma chunks_concat cnt m l : concat (np.chunks cnt m l) = take (cnt * m) l.
Proof.
  revert l. induction cnt as [|cnt IH]; intros l; cbn; [done|].
  rewrite IH. rewrite <- take_take_drop. reflexivity.
Qed.


End Chunks.

Section ChunksNested.

Context {A : Type}.
Implicit Types (l : list A) (cnt m : nat).

Lemma chunks_app a b m l :
  np.chunks (a + b) m l = np.chunks a m l ++ np.chunks b m (drop (a * m) l).
Proof.
  revert l. induction a as [|a IH]; intros l; cbn; [done|].
  rewrite IH, drop_drop. reflexivity.
Qed.

Lemma chunks_take cnt m t l :
  cnt * m ≤ t → np.chunks cnt m (take t l) = np.chunks cnt m l.
Proof.
  revert t l. induction cnt as [|cnt IH]; intros t l Ht; cbn in *; [done|].
  rewrite take_take, Nat.min_l by lia. f_equal.
  rewrite skipn_firstn_comm. apply IH. lia.
Qed.

(** The pixels of a reshaped array, row after row, are the consecutive
    groups of [d] samples of the flat buffer. *)
Lemma chunks_chunks r c d l :
  concat ((fun row : list A => np.chunks c d row) <$> np.chunks r (c * d) l)
  = np.chunks (r * c) d l.
Proof.
  revert l. induction r as [|r IH]; intros l; cbn; [done|].
  rewrite IH, chunks_app, chunks_take by done. reflexivity.
Qed.

Lemma concat_fmap_fmap {B} (g : A → B) (ls : list (list A)) :
  concat ((fun row : list A => g <$> row) <$> ls) = g <$> concat ls.
Proof.
  induction ls as [|x ls IH]; cbn; [done|].
  by rewrite IH, fmap_app.
Qed.

End ChunksNested.

(** Row-major addressing of a reshaped buffer. *)
Lemma reshape_item (flat : list byte) (r c d : nat) img r0 c0 d0 :
  np.reshape flat r c d = Ok img →
  r0 < r → c0 < c → d0 < d →
  np.item img r0 c0 d0 = flat !! ((r0 * c + c0) * d + d0).
Proof.
  unfold np.reshape. case_decide as Hlen; [|discriminate].
  intros [= <-] Hr Hc Hd. unfold np.item. cbn.
  rewrite list_lookup_fmap, chunks_lookup by done. cbn.
  rewrite chunks_lookup by done. cbn.
  rewrite lookup_take_lt, lookup_drop by done.
  rewrite lookup_take_lt by nia.
  rewrite lookup_drop. f_equal. nia.
Qed.

(** The samples of channel [d0] of a reshaped buffer, in row-major pixel
    order, sit at the offsets [p * d + d0] of the flat buffer. *)
Lemma reshape_channel (flat : list byte) (r c d : nat) img d0 :
  np.reshape flat r c d = Ok img →
  d0 < d →
  ∃ ch, np.channel img d0 = Ok ch ∧
        concat ch = (fun p => default x00 (flat !! (p * d + d0))) <$> seq 0 (r * c).
Proof.
  unfold np.reshape. case_decide as Hlen; [|discriminate].
  intros [= <-] Hd. unfold np.channel. cbn.
  rewrite decide_True by done. eexists; split; [reflexivity|].
  rewrite concat_fmap_fmap, chunks_chunks, chunks_seq.
  rewrite <- list_fmap_compose. apply list_fmap_ext.
  intros i p _. cbn.
  by rewrite lookup_take_lt, lookup_drop.
Qed.

Lemma reshape_shape (flat : list byte) (r c d : nat) img :
  np.reshape flat r c d = Ok img → np.shape img = (r, c, d).
Proof.
  unfold np.reshape. case_decide; [|discriminate]. by intros [= <-].
Qed.

Lemma reshape_ravel (flat : list byte) (r c d : nat) img :
  np.reshape flat r c d = Ok img → np.ravel img = flat.
Proof.
  unfold np.reshape. case_decide as Hlen; [|discriminate]. intros [= <-].
  unfold np.ravel. cbn.
  rewrite chunks_chunks, chunks_concat. apply take_ge. lia.
Qed.

(** ** Rounding to binary64 *)

Lemma round_half_even_spec (a b : Z) :
  (0 ≤ a)%Z → (0 < b)%Z →
  (0 ≤ np.round_half_even a b)%Z ∧
  (Z.abs (2 * (np.round_half_even a b * b - a)) ≤ b)%Z ∧
  (Z.abs (2 * (np.round_half_even a b * b - a)) = b →
   Z.even (np.round_half_even a b) = true)%Z.
Proof.
  intros Ha Hb. unfold np.round_half_even.
  pose proof (Z.div_mod a b ltac:(lia)) as Hdm.
  pose proof (Z.mod_pos_bound a b Hb) as Hr.
  pose proof (Z.div_pos a b Ha Hb) as Hq.
  set (q := (a / b)%Z) in *. set (r := (a mod b)%Z) in *.
  assert (q * b = a - r)%Z as Hqb by lia.
  destruct (2 * r <? b)%Z eqn:H1; [apply Z.ltb_lt in H1|apply Z.ltb_ge in H1].
  { rewrite Hqb. repeat split; lia. }
  destruct (b <? 2 * r)%Z eqn:H2; [apply Z.ltb_lt in H2|apply Z.ltb_ge in H2].
  { replace ((q + 1) * b)%Z with (a - r + b)%Z by lia. repeat split; lia. }
  destruct (Z.even q) eqn:He.
  - rewrite Hqb. repeat split; try lia. done.
  - replace ((q + 1) * b)%Z with (a - r + b)%Z by lia. repeat split; try lia.
    intros _. rewrite Z.even_add, He. reflexivity.
Qed.

Lemma scale64_spec (s c : Z) :
  (0 < s)%Z → (0 < c)%Z → (s ≤ 255 * c)%Z →
  (0 ≤ np.scale64 s c ≤ 1074)%Z ∧
  (s * 2 ^ np.scale64 s c < 2 ^ 53 * c)%Z ∧
  (2 ^ 52 * c ≤ s * 2 ^ np.scale64 s c ∨ np.scale64 s c = 1074)%Z.
Proof.
  intros Hs Hc Hle. unfold np.scale64.
  destruct (Z.log2_spec s Hs) as [Hs1 Hs2].
  destruct (Z.log2_spec c Hc) as [Hc1 Hc2].
  pose proof (Z.log2_nonneg s) as Hls. pose proof (Z.log2_nonneg c) as Hlc.
  rewrite Z.pow_succ_r in Hs2, Hc2 by done.
  assert (Z.log2 s < Z.log2 c + 9)%Z as Hd.
  { apply (Z.pow_lt_mono_r_iff 2); [lia|lia|].
    rewrite Z.pow_add_r by lia. change (2 ^ 9)%Z with 512%Z. lia. }
  set (d := (52 + Z.log2 c - Z.log2 s)%Z).
  assert (0 ≤ d)%Z as Hd0 by lia.
  assert (2 ^ d * 2 ^ Z.log2 s = 2 ^ 52 * 2 ^ Z.log2 c)%Z as Hpow.
  { rewrite <- !Z.pow_add_r by lia. f_equal. lia. }
  assert (0 < 2 ^ d)%Z as HD by (apply Z.pow_pos_nonneg; lia).
  change (2 ^ 52)%Z with 4503599627370496%Z in *.
  change (2 ^ 53)%Z with 9007199254740992%Z in *.
  set (t := if (4503599627370496 * c <=? s * 2 ^ d)%Z then d else (d + 1)%Z).
  assert (0 ≤ t ∧ s * 2 ^ t < 9007199254740992 * c ∧
          4503599627370496 * c ≤ s * 2 ^ t)%Z as (Ht0 & Hup & Hlo).
  { unfold t. destruct (_ <=? _)%Z eqn:Hcmp;
      [apply Z.leb_le in Hcmp|apply Z.leb_gt in Hcmp].
    - repeat split; [lia| |lia].
      generalize dependent (2 ^ d)%Z. generalize dependent (2 ^ Z.log2 s)%Z.
      generalize dependent (2 ^ Z.log2 c)%Z. intros. nia.
    - rewrite Z.pow_add_r by lia. change (2 ^ 1)%Z with 2%Z.
      generalize dependent (2 ^ d)%Z. generalize dependent (2 ^ Z.log2 s)%Z.
      generalize dependent (2 ^ Z.log2 c)%Z. intros. nia. }
  destruct (Z.min_spec t 1074) as [[Hlt ->]|[Hge ->]].
  - split; [lia|]. split; [done|by left].
  - split; [lia|]. split; [|by right].
    assert (2 ^ 1074 ≤ 2 ^ t)%Z by (apply Z.pow_le_mono_r; lia).
    generalize dependent (2 ^ 1074)%Z. generalize dependent (2 ^ t)%Z.
    intros. nia.
Qed.

Lemma Qmake_scale (m t : Z) :
  (0 ≤ t)%Z →
  (Qred (m # Z.to_pos (2 ^ t)) * inject_Z (2 ^ t) == inject_Z m)%Q.
Proof.
  intros Ht. rewrite Qred_correct.
  assert (0 < 2 ^ t)%Z as Hp by (apply Z.pow_pos_nonneg; lia).
  unfold Qeq, Qmult, inject_Z. cbn [Qnum Qden].
  rewrite Pos2Z.inj_mul, Z2Pos.id by done. lia.
Qed.

(** [np.div64] rounds to the nearest binary64 number, ties to even. *)
Lemma div64_spec (s c : Z) :
  (0 ≤ s)%Z → (0 < c)%Z → (s ≤ 255 * c)%Z →
  is_float64_quotient s c (np.div64 s c).
Proof.
  intros Hs Hc Hle. unfold np.div64.
  destruct (s =? 0)%Z eqn:Hz; [apply Z.eqb_eq in Hz|apply Z.eqb_neq in Hz].
  - subst s. exists 1074%Z, 0%Z. rewrite !Z.mul_0_l.
    split; [lia|]. split; [lia|]. split; [reflexivity|].
    split; [lia|]. split; [by right|]. split; [lia|reflexivity].
  - destruct (scale64_spec s c) as (Ht & Hup & Hlo); [lia|lia|lia|].
    set (t := np.scale64 s c) in *.
    assert (0 < 2 ^ t)%Z as Hp by (apply Z.pow_pos_nonneg; lia).
    destruct (round_half_even_spec (s * 2 ^ t) c) as (Hm & Hnear & Htie);
      [lia|lia|].
    exists t, (np.round_half_even (s * 2 ^ t) c).
    split; [done|]. split; [done|].
    split; [apply Qmake_scale; lia|].
    by repeat split.
Qed.

Lemma div64_bounds (s c : Z) :
  (0 ≤ s)%Z → (0 < c)%Z → (s ≤ 255 * c)%Z →
  (0 <= np.div64 s c)%Q ∧ (np.div64 s c <= 255)%Q.
Proof.
  intros Hs Hc Hle. unfold np.div64.
  destruct (s =? 0)%Z eqn:Hz; [done|apply Z.eqb_neq in Hz].
  destruct (scale64_spec s c) as (Ht & _); [lia|lia|lia|].
  set (t := np.scale64 s c) in *.
  assert (0 < 2 ^ t)%Z as Hp by (apply Z.pow_pos_nonneg; lia).
  destruct (round_half_even_spec (s * 2 ^ t) c) as (Hm & Hnear & _);
    [lia|lia|].
  set (m := np.round_half_even (s * 2 ^ t) c) in *.
  rewrite !Qred_correct. unfold Qle. cbn [Qnum Qden].
  rewrite Z2Pos.id by done.
  split; [lia|].
  generalize dependent (2 ^ t)%Z. intros T HT Hnear. nia.
Qed.

(** A whole quotient is not rounded. *)
Lemma div64_exact (c v : Z) :
  (0 < c)%Z → (0 ≤ v ≤ 255)%Z → np.div64 (c * v) c = inject_Z v.
Proof.
  intros Hc Hv. unfold np.div64.
  destruct (c * v =? 0)%Z eqn:Hz; [apply Z.eqb_eq in Hz|apply Z.eqb_neq in Hz].
  { assert (v = 0%Z) as -> by nia. reflexivity. }
  destruct (scale64_spec (c * v) c) as (Ht & _); [nia|lia|nia|].
  set (t := np.scale64 (c * v) c) in *.
  assert (0 < 2 ^ t)%Z as Hp by (apply Z.pow_pos_nonneg; lia).
  destruct (round_half_even_spec (c * v * 2 ^ t) c) as (_ & Hnear & _);
    [nia|lia|].
  set (m := np.round_half_even (c * v * 2 ^ t) c) in *.
  assert (m = v * 2 ^ t)%Z as ->
    by (generalize dependent (2 ^ t)%Z; intros; nia).
  rewrite <- (Qcanon.Qred_identity (inject_Z v)).
  - apply Qred_complete. unfold Qeq, inject_Z. cbn [Qnum Qden].
    rewrite Z2Pos.id by done. lia.
  - unfold inject_Z. cbn [Qnum Qden]. apply Z.gcd_1_r.
Qed.

(** The conditions of [is_float64_quotient] leave one value only. *)
Lemma is_float64_quotient_unique (s c : Z) (q1 q2 : Q) :
  (0 < c)%Z →
  is_float64_quotient s c q1 → is_float64_quotient s c q2 → (q1 == q2)%Q.
Proof.
  intros Hc (t1 & m1 & Ht1 & _ & Hq1 & Hup1 & Hlo1 & Hn1 & He1)
            (t2 & m2 & Ht2 & _ & Hq2 & Hup2 & Hlo2 & Hn2 & He2).
  change (2 ^ 52)%Z with 4503599627370496%Z in *.
  change (2 ^ 53)%Z with 9007199254740992%Z in *.
  assert (∀ a b, (0 ≤ a < b)%Z → (2 * 2 ^ a ≤ 2 ^ b)%Z) as Hmono.
  { intros a b Hab. rewrite <- Z.pow_succ_r by lia.
    apply Z.pow_le_mono_r; lia. }
  assert (t1 = t2) as <-.
  { destruct (Z.lt_trichotomy t1 t2) as [Hlt|[Heq|Hgt]]; [|done|].
    - exfalso. destruct Hlo1 as [Hlo1|]; [|lia].
      pose proof (Hmono t1 t2 ltac:(lia)).
      assert (0 < 2 ^ t1)%Z by (apply Z.pow_pos_nonneg; lia).
      generalize dependent (2 ^ t1)%Z. generalize dependent (2 ^ t2)%Z.
      intros. nia.
    - exfalso. destruct Hlo2 as [Hlo2|]; [|lia].
      pose proof (Hmono t2 t1 ltac:(lia)).
      assert (0 < 2 ^ t2)%Z by (apply Z.pow_pos_nonneg; lia).
      generalize dependent (2 ^ t1)%Z. generalize dependent (2 ^ t2)%Z.
      intros. nia. }
  assert (0 < 2 ^ t1)%Z as Hp by (apply Z.pow_pos_nonneg; lia).
  assert (m1 = m2) as <-.
  { set (A := (s * 2 ^ t1)%Z) in *. clearbody A.
    destruct (Z.lt_trichotomy m1 m2) as [Hlt|[Heq|Hgt]]; [|done|]; exfalso.
    - assert (m2 = m1 + 1)%Z as -> by nia.
      specialize (He1 ltac:(nia)). specialize (He2 ltac:(nia)).
      rewrite Z.even_add, He1 in He2. discriminate.
    - assert (m1 = m2 + 1)%Z as -> by nia.
      specialize (He1 ltac:(nia)). specialize (He2 ltac:(nia)).
      rewrite Z.even_add, He2 in He1. discriminate. }
  assert (¬ (inject_Z (2 ^ t1) == 0)%Q) as Hnz.
  { unfold Qeq, inject_Z. cbn. lia. }
  apply (Qmult_inj_r _ _ _ Hnz). by rewrite Hq1, Hq2.
Qed.

(** ** The mean of [uint8] samples *)

Lemma sum_bounds (xs : list byte) :
  (0 ≤ np.sum xs ≤ 255 * Z.of_nat (length xs))%Z.
Proof.
  induction xs as [|b xs IH]; cbn [np.sum foldr length]; [lia|].
  fold (np.sum xs). pose proof (Byte.to_N_bounded b). lia.
Qed.

Lemma sum_total (xs : list byte) : np.sum xs = Z.of_nat (total xs).
Proof.
  induction xs as [|b xs IH]; [reflexivity|].
  cbn [np.sum foldr total sum_list_with]. fold (np.sum xs). fold (total xs).
  rewrite IH. lia.
Qed.

Lemma mean_flat_nonempty (xs : list byte) :
  0 < length xs →
  ∃ q, np.mean_flat xs = Val q ∧ is_float64_mean xs q ∧ (0 <= q)%Q ∧ (q <= 255)%Q.
Proof.
  intros Hlen. unfold np.mean_flat, is_float64_mean.
  pose proof (sum_bounds xs) as Hs.
  destruct (length xs) as [|m] eqn:Hm; [lia|].
  eexists; split; [reflexivity|].
  split; [rewrite <- sum_total; apply div64_spec; lia|].
  apply div64_bounds; lia.
Qed.

Lemma mean_flat_empty (xs : list byte) :
  length xs = 0 → np.mean_flat xs = NaN.
Proof. intros H. unfold np.mean_flat. by rewrite H. Qed.

(** An image without rows has no sample to average: its means are [nan]. *)
Example mean_no_rows : _mean 1 0 2 2 [] = Ok [[NaN; NaN]].
Proof. reflexivity. Qed.

(** A mean that is a whole number is not rounded. *)
Lemma is_float64_mean_whole (xs : list byte) (q : Q) (v : Z) :
  0 < length xs →
  (Z.of_nat (total xs) = Z.of_nat (length xs) * v)%Z →
  is_float64_mean xs q → (q == inject_Z v)%Q.
Proof.
  intros Hlen Hv Hq. unfold is_float64_mean in Hq.
  pose proof (sum_bounds xs) as Hs. rewrite sum_total in Hs.
  assert (0 ≤ v ≤ 255)%Z as Hv255 by nia.
  eapply is_float64_quotient_unique; [|exact Hq|]; [lia|].
  rewrite Hv, <- (div64_exact (Z.of_nat (length xs)) v) by lia.
  apply div64_spec; nia.
Qed.

(** ** Decoding the stacked images *)

Section Geometry.

Variables n nrows ncols ndims : nat.

Local Abbreviation k := (block_size nrows ncols ndims).
Local Abbreviation block := (block nrows ncols ndims).
Local Abbreviation decode := (decode n nrows ncols ndims).
Local Abbreviation _mean := (_mean n nrows ncols ndims).
Local Abbreviation sample_range := (sample_range nrows ncols ndims).
Local Abbreviation channel_samples := (channel_samples nrows ncols ndims).
Local Abbreviation channel_mean := (channel_mean nrows ncols ndims).
Local Abbreviation means_matrix := (means_matrix n nrows ncols ndims).

Implicit Types (x : list byte) (i d : nat).

Lemma block_unfold x i :
  block x i = np.reshape (sample_range x i) nrows ncols ndims.
Proof.
  unfold hic.block, hic.sample_range, np.slice, block_size.
  f_equal. f_equal; [nia|f_equal; nia].
Qed.

Lemma sample_range_length x i :
  (i + 1) * k ≤ length x → length (sample_range x i) = k.
Proof.
  intros H. unfold hic.sample_range.
  rewrite length_take, length_drop. lia.
Qed.

Lemma sample_range_lookup x i j :
  j < k → sample_range x i !! j = x !! (i * k + j).
Proof.
  intros H. unfold hic.sample_range.
  by rewrite lookup_take_lt, lookup_drop.
Qed.

Lemma block_cases x i :
  block x i = Raise ValueError ∨ ∃ img, block x i = Ok img.
Proof.
  unfold hic.block, np.reshape. case_decide; eauto.
Qed.

Lemma block_Ok x i :
  (i + 1) * k ≤ length x → ∃ img, block x i = Ok img.
Proof.
  intros H. rewrite block_unfold. unfold np.reshape.
  rewrite decide_True; [eauto|]. by rewrite sample_range_length.
Qed.

Lemma block_short x i :
  length x < (i + 1) * k → block x i = Raise ValueError.
Proof.
  intros H. rewrite block_unfold. unfold np.reshape.
  rewrite decide_False; [done|].
  unfold hic.sample_range. rewrite length_take, length_drop.
  change (nrows * ncols * ndims) with k.
  assert (0 < k) as Hk.
  { destruct (decide (k = 0)) as [Hk|]; [rewrite Hk, Nat.mul_0_r in H|]; lia. }
  replace ((i + 1) * k) with (i * k + k) in H by lia.
  generalize dependent (i * k). generalize dependent k. intros; lia.
Qed.

Lemma block_shape x i img :
  block x i = Ok img → np.shape img = (nrows, ncols, ndims).
Proof. rewrite block_unfold. apply reshape_shape. Qed.

Lemma block_ravel x i img :
  block x i = Ok img → np.ravel img = sample_range x i.
Proof. rewrite block_unfold. apply reshape_ravel. Qed.

Lemma block_item x i img r c d :
  block x i = Ok img → r < nrows → c < ncols → d < ndims →
  np.item img r c d = x !! (i * k + (r * ncols + c) * ndims + d).
Proof.
  rewrite block_unfold. intros Hb Hr Hc Hd.
  rewrite (reshape_item _ _ _ _ _ _ _ _ Hb) by done.
  rewrite sample_range_lookup by offsets.
  f_equal. lia.
Qed.

Lemma block_item_Some x i img r c d :
  block x i = Ok img → r < nrows → c < ncols → d < ndims →
  is_Some (np.item img r c d).
Proof.
  intros Hb Hr Hc Hd.
  assert (length (sample_range x i) = k) as Hlen.
  { rewrite block_unfold in Hb. unfold np.reshape in Hb.
    case_decide; [done|discriminate]. }
  rewrite block_unfold in Hb.
  rewrite (reshape_item _ _ _ _ _ _ _ _ Hb) by done.
  apply lookup_lt_is_Some. rewrite Hlen. offsets.
Qed.

(** The channel means of a decoded image are the means of the samples at
    the channel's offsets in the buffer. *)
Lemma perDim_block x i img :
  block x i = Ok img →
  _perDim img ndims = Ok ((fun d => channel_mean x i d) <$> seq 0 ndims).
Proof.
  intros Hb. unfold _perDim. apply mapM_Ok_fmap.
  intros d [_ Hd]%elem_of_seq. cbn in Hd.
  rewrite block_unfold in Hb.
  destruct (reshape_channel _ _ _ _ _ d Hb Hd) as (ch & -> & Hch). cbn.
  unfold mret, result_ret. f_equal.
  unfold np.mean, hic.channel_mean, hic.channel_samples.
  rewrite Hch. f_equal. apply list_fmap_ext.
  intros j p [-> Hp]%lookup_seq. cbn.
  rewrite sample_range_lookup by offsets.
  do 2 f_equal. lia.
Qed.

Lemma decode_length x blocks : decode x = Ok blocks → length blocks = n.
Proof. intros H%mapM_Ok_length. by rewrite length_seq in H. Qed.

Lemma decode_lookup x blocks i img :
  decode x = Ok blocks → blocks !! i = Some img → i < n ∧ block x i = Ok img.
Proof.
  intros Hd Hi.
  assert (i < n) as Hlt.
  { rewrite <- (decode_length _ _ Hd). by eapply lookup_lt_Some. }
  split; [done|].
  destruct (mapM_Ok_lookup _ _ _ i i Hd) as (b & Hb & Hblock).
  { by apply lookup_seq_lt. }
  congruence.
Qed.

Lemma decode_Ok x :
  n * k ≤ length x → ∃ blocks, decode x = Ok blocks.
Proof.
  intros Hlen. apply mapM_Ok_exists.
  intros i [_ Hi]%elem_of_seq. apply block_Ok. nia.
Qed.

Lemma decode_lookup_lt x blocks i :
  decode x = Ok blocks → i < n →
  ∃ img, blocks !! i = Some img ∧ block x i = Ok img.
Proof.
  intros Hd Hi.
  destruct (mapM_Ok_lookup _ _ _ i i Hd) as (b & Hb & Hblock); [|by eauto].
  by apply lookup_seq_lt.
Qed.

Lemma decode_short x : length x < n * k → decode x = Raise ValueError.
Proof.
  intros Hlen. apply mapM_Raise.
  - intros i _. apply block_cases.
  - assert (0 < n) by (destruct n; [cbn in Hlen|]; lia).
    exists (n - 1). split.
    + apply elem_of_seq. lia.
    + apply block_short. by replace (n - 1 + 1) with n by lia.
Qed.

(** [_mean] is [decode] followed by [_perDim] on every image. *)
Lemma mean_decode x :
  _mean x = blocks ← decode x; mapM (fun img => _perDim img ndims) blocks.
Proof.
  unfold hic._mean, hic.decode.
  apply mapM_bind_split. intros i img _ Hb.
  rewrite (perDim_block _ _ _ Hb). by eexists.
Qed.

Lemma mean_step x i :
  (img ← block x i; _perDim img ndims) = Raise ValueError ∨
  (img ← block x i; _perDim img ndims)
  = Ok ((fun d => channel_mean x i d) <$> seq 0 ndims).
Proof.
  destruct (block_cases x i) as [Hb|[img Hb]]; rewrite Hb; cbn; [by left|].
  right. by eapply perDim_block.
Qed.

(** The outcome of [_mean] when every stacked image is there. *)
Lemma mean_Ok x : n * k ≤ length x → _mean x = Ok (means_matrix x).
Proof.
  intros Hlen. unfold hic._mean, hic.means_matrix.
  apply mapM_Ok_fmap. intros i [_ Hi]%elem_of_seq.
  destruct (block_Ok x i) as [img Hb]; [nia|].
  rewrite Hb. cbn. by eapply perDim_block.
Qed.

Lemma mean_Ok_inv x m : _mean x = Ok m → m = means_matrix x.
Proof.
  intros Hm.
  assert (_mean x = Ok (means_matrix x)) as H; [|congruence].
  unfold hic._mean, hic.means_matrix.
  apply mapM_Ok_fmap. intros i Hi.
  apply list_elem_of_lookup in Hi as [j Hj].
  destruct (mapM_Ok_lookup _ _ _ _ _ Hm Hj) as (b & _ & Hb).
  destruct (mean_step x i) as [H|H]; congruence.
Qed.

Lemma mean_short x : length x < n * k → _mean x = Raise ValueError.
Proof.
  intros Hlen. rewrite mean_decode, decode_short by done. reflexivity.
Qed.

Lemma means_matrix_length x : length (means_matrix x) = n.
Proof. unfold hic.means_matrix. by rewrite length_fmap, length_seq. Qed.

Lemma means_matrix_lookup x i :
  i < n →
  means_matrix x !! i = Some ((fun d => channel_mean x i d) <$> seq 0 ndims).
Proof.
  intros Hi. unfold hic.means_matrix.
  by rewrite list_lookup_fmap, lookup_seq_lt.
Qed.

Lemma means_matrix_row x row :
  row ∈ means_matrix x → length row = ndims.
Proof.
  intros (i & -> & _)%list_elem_of_fmap.
  by rewrite length_fmap, length_seq.
Qed.

Lemma means_matrix_entry x i d :
  i < n → d < ndims →
  (row ← means_matrix x !! i; row !! d) = Some (channel_mean x i d).
Proof.
  intros Hi Hd. rewrite means_matrix_lookup by done. cbn.
  by rewrite list_lookup_fmap, lookup_seq_lt.
Qed.

(** Only the first [n * k] samples are read. *)
Lemma sample_range_take x i :
  i < n → sample_range (take (n * k) x) i = sample_range x i.
Proof.
  intros Hi. unfold hic.sample_range.
  rewrite skipn_firstn_comm, take_take. f_equal. nia.
Qed.

Lemma mean_take x : _mean (take (n * k) x) = _mean x.
Proof.
  apply mapM_ext. intros i [_ Hi]%elem_of_seq.
  by rewrite !block_unfold, sample_range_take.
Qed.

End Geometry.

(** **** Claim C2.
    For every geometry (a positive one in particular) and every buffer that
    holds at least [n * nrows * ncols * ndims] samples, the decoder yields exactly [n] images in stack order; image [i] has shape
    [(nrows, ncols, ndims)], is made of the sample range
    [[i * nrows*ncols*ndims, (i+1) * nrows*ncols*ndims)] of the buffer, and
    is laid out row-major: the sample of row [r], column [c], channel [d] is
    the buffer's sample at offset
    [i * nrows*ncols*ndims + (r * ncols + c) * ndims + d], so the channel
    index varies fastest, then the column, then the row. *)
Theorem decode_blocks_row_major (n nrows ncols ndims : nat) (x : list byte) :
  n * (nrows * ncols * ndims) ≤ length x →
  ∃ blocks,
    decode n nrows ncols ndims x = Ok blocks ∧
    length blocks = n ∧
    ∀ i, i < n →
      ∃ img,
        blocks !! i = Some img ∧
        np.shape img = (nrows, ncols, ndims) ∧
        np.ravel img = take (nrows * ncols * ndims) (drop (i * (nrows * ncols * ndims)) x) ∧
        ∀ r c d, r < nrows → c < ncols → d < ndims →
          ∃ b, np.item img r c d = Some b ∧
               x !! (i * (nrows * ncols * ndims) + (r * ncols + c) * ndims + d) = Some b.
Proof.
  intros Hlen.
  destruct (decode_Ok n nrows ncols ndims x Hlen) as [blocks Hd].
  exists blocks. split; [done|]. split; [by eapply decode_length|].
  intros i Hi.
  destruct (decode_lookup_lt _ _ _ _ _ _ i Hd Hi) as (img & Himg & Hb).
  exists img. split; [done|]. split; [by eapply block_shape|].
  split; [by eapply block_ravel|].
  intros r c d Hr Hc Hd'.
  destruct (block_item_Some _ _ _ _ _ _ _ _ d Hb Hr Hc Hd') as [b Hitem].
  exists b. split; [done|].
  pose proof (block_item _ _ _ _ _ _ _ _ _ Hb Hr Hc Hd') as Hoff.
  unfold block_size in Hoff. by rewrite <- Hoff.
Qed.

Lemma decode_blocks_row_major_witness :
  ∃ blocks,
    decode 2 1 2 2 [x01; x02; x03; x04; x05; x06; x07; x08; x09] = Ok blocks ∧
    length blocks = 2.
Proof.
  destruct (decode_blocks_row_major 2 1 2 2
              [x01; x02; x03; x04; x05; x06; x07; x08; x09])
    as (blocks & Hd & Hl & _); [simpl; lia|].
  exists blocks. by split.
Defined.

(** **** Claim C3, as stated, fails.
    On the single image of one row, three columns and one channel holding
    the samples 0, 0, 1, [_perDim] returns the binary64 number
    [6004799503160661 / 2^54] (0.3333333333333333), which is not the
    arithmetic mean 1/3 of the samples. *)
Lemma perDim_mean_not_exact :
  ∃ img q,
    decode 1 1 3 1 [x00; x00; x01] = Ok [img] ∧
    np.ravel img = [x00; x00; x01] ∧
    _perDim img 1 = Ok [Val q] ∧
    q = (6004799503160661 # 18014398509481984)%Q ∧
    ¬ is_arith_mean [x00; x00; x01] q.
Proof.
  eexists. eexists.
  split; [reflexivity|]. split; [reflexivity|].
  split; [reflexivity|]. split; [reflexivity|].
  unfold is_arith_mean, Qeq. vm_compute. discriminate.
Qed.

(** **** Claim C3, amended.
    For a decoded image of a positive number of rows and columns and every
    channel [d] below [ndims], entry [d] of what [_perDim] computes is the
    arithmetic mean of the [nrows * ncols] samples of the image whose
    channel index is [d], rounded to the nearest binary64 number, ties to
    even; it is that arithmetic mean itself whenever the mean is a whole
    number. *)
Theorem perDim_rounded_mean (n nrows ncols ndims : nat) (x : list byte)
    (blocks : list np.ndarray3) (i : nat) (img : np.ndarray3) (d : nat) :
  decode n nrows ncols ndims x = Ok blocks →
  blocks !! i = Some img →
  0 < nrows → 0 < ncols → d < ndims →
  ∃ ms samples q,
    _perDim img ndims = Ok ms ∧
    length ms = ndims ∧
    ms !! d = Some (Val q) ∧
    length samples = nrows * ncols ∧
    (∀ r c, r < nrows → c < ncols →
       is_Some (np.item img r c d) ∧
       samples !! (r * ncols + c) = np.item img r c d) ∧
    is_float64_mean samples q ∧
    (∀ v : Z, Z.of_nat (total samples) = (Z.of_nat (nrows * ncols) * v)%Z →
              (q == inject_Z v)%Q).
Proof.
  intros Hdec Himg Hr Hc Hd.
  destruct (decode_lookup _ _ _ _ _ _ _ _ Hdec Himg) as [Hi Hb].
  set (samples := channel_samples nrows ncols ndims x i d).
  assert (length samples = nrows * ncols) as Hlen.
  { unfold samples, channel_samples. by rewrite length_fmap, length_seq. }
  destruct (mean_flat_nonempty samples) as (q & Hq & Hmean & _); [nia|].
  exists ((fun d => channel_mean nrows ncols ndims x i d) <$> seq 0 ndims), samples, q.
  split; [by eapply perDim_block|].
  split; [by rewrite length_fmap, length_seq|].
  split.
  { rewrite list_lookup_fmap, lookup_seq_lt by done. cbn.
    unfold channel_mean. fold samples. by rewrite Hq. }
  split; [done|]. split; [|split; [done|]].
  - intros r c Hr' Hc'.
    pose proof (block_item_Some _ _ _ _ _ _ _ _ d Hb Hr' Hc' Hd) as Hsome.
    split; [done|].
    rewrite (block_item _ _ _ _ _ _ _ _ _ Hb Hr' Hc' Hd) in *.
    unfold samples, channel_samples.
    rewrite list_lookup_fmap, lookup_seq_lt by offsets. cbn.
    destruct Hsome as [b Hb']. unfold block_size in *. by rewrite Hb'.
  - intros v Hv. apply (is_float64_mean_whole samples); [nia| |done].
    by rewrite Hlen.
Qed.

Lemma perDim_rounded_mean_witness :
  ∃ ms samples q,
    _perDim (np.mk_ndarray3 (1, 2, 2) [[[x01; x02]; [x03; x04]]]) 2 = Ok ms ∧
    ms !! 1 = Some (Val q) ∧
    samples = [x02; x04] ∧
    is_float64_mean samples q ∧
    (q == 3)%Q.
Proof.
  destruct (perDim_rounded_mean 2 1 2 2
              [x01; x02; x03; x04; x05; x06; x07; x08; x09]
              [np.mk_ndarray3 (1, 2, 2) [[[x01; x02]; [x03; x04]]];
               np.mk_ndarray3 (1, 2, 2) [[[x05; x06]; [x07; x08]]]]
              0 (np.mk_ndarray3 (1, 2, 2) [[[x01; x02]; [x03; x04]]]) 1)
    as (ms & samples & q & H1 & _ & H2 & H3 & H4 & H5 & H6);
    [reflexivity|reflexivity|lia|lia|lia|].
  assert (samples = [x02; x04]) as Hs.
  { destruct (H4 0 0) as [_ Ha]; [lia|lia|].
    destruct (H4 0 1) as [_ Hb]; [lia|lia|].
    destruct samples as [|a [|b [|? ?]]]; try discriminate H3.
    vm_compute in Ha, Hb. congruence. }
  exists ms, samples, q.
  split; [done|]. split; [done|]. split; [done|]. split; [done|].
  apply (H6 3%Z). rewrite Hs. reflexivity.
Defined.

(** **** Claim C4.
    For a buffer of exactly [n * nrows * ncols * ndims] samples, decoding it
    into [n] images and flattening the images again, in stack order, gives
    back the buffer. *)
Theorem decode_ravel_roundtrip (n nrows ncols ndims : nat) (x : list byte) :
  length x = n * (nrows * ncols * ndims) →
  ∃ blocks,
    decode n nrows ncols ndims x = Ok blocks ∧
    length blocks = n ∧
    concat (np.ravel <$> blocks) = x.
Proof.
  intros Hlen.
  destruct (decode_Ok n nrows ncols ndims x) as [blocks Hd].
  { unfold block_size. lia. }
  pose proof (decode_length _ _ _ _ _ _ Hd) as Hn.
  exists blocks. split; [done|]. split; [done|].
  assert (np.ravel <$> blocks = np.chunks n (nrows * ncols * ndims) x) as ->.
  { apply list_eq. intros i. destruct (decide (i < n)) as [Hi|Hi].
    - destruct (decode_lookup_lt _ _ _ _ _ _ i Hd Hi) as (img & Himg & Hb).
      rewrite list_lookup_fmap, Himg, chunks_lookup by done. cbn.
      f_equal. by eapply block_ravel.
    - rewrite !lookup_ge_None_2; [done| |].
      + rewrite chunks_length. lia.
      + rewrite length_fmap. lia. }
  rewrite chunks_concat. apply take_ge. lia.
Qed.

Lemma decode_ravel_roundtrip_witness :
  ∃ blocks,
    decode 2 1 2 2 [x01; x02; x03; x04; x05; x06; x07; x08] = Ok blocks ∧
    concat (np.ravel <$> blocks) = [x01; x02; x03; x04; x05; x06; x07; x08].
Proof.
  destruct (decode_ravel_roundtrip 2 1 2 2
              [x01; x02; x03; x04; x05; x06; x07; x08])
    as (blocks & Hd & _ & Hr); [reflexivity|].
  exists blocks. by split.
Defined.

(** **** Claim C5.
    For a buffer shorter than the [n * nrows * ncols * ndims] samples the
    geometry asks for, decoding fails: [reshape] raises its [ValueError] on
    the first image that is not complete, and so does [_mean]; no image is
    silently cut short. *)
Theorem short_buffer_raises (n nrows ncols ndims : nat) (x : list byte) :
  length x < n * (nrows * ncols * ndims) →
  decode n nrows ncols ndims x = Raise ValueError ∧
  _mean n nrows ncols ndims x = Raise ValueError.
Proof.
  intros Hlen. split; [by apply decode_short|by apply mean_short].
Qed.

Lemma short_buffer_raises_witness :
  decode 2 2 2 3 [x01; x02; x03] = Raise ValueError ∧
  _mean 2 2 2 3 [x01; x02; x03] = Raise ValueError.
Proof. apply (short_buffer_raises 2 2 2 3 [x01; x02; x03]). simpl. lia. Defined.

(** ** [os.path.basename] *)

Lemma rfind_range (c : ascii) (p : string) :
  (-1 ≤ py.rfind c p < Z.of_nat (String.length p))%Z.
Proof.
  induction p as [|a rest IH]; cbn [py.rfind String.length]; [lia|].
  destruct (0 <=? py.rfind c rest)%Z eqn:Hr; [lia|].
  destruct (Ascii.eqb a c); lia.
Qed.

Lemma basename_cons (a : ascii) (rest : string) :
  py.basename (String a rest)
  = if (0 <=? py.rfind "/" rest)%Z then py.basename rest
    else if Ascii.eqb a "/" then rest else String a rest.
Proof.
  unfold py.basename. cbn [py.rfind].
  pose proof (rfind_range "/" rest) as Hrange.
  destruct (0 <=? py.rfind "/" rest)%Z eqn:Hr.
  - apply Z.leb_le in Hr.
    replace (Z.to_nat (py.rfind "/" rest + 1 + 1))
      with (S (Z.to_nat (py.rfind "/" rest + 1))) by lia.
    reflexivity.
  - destruct (Ascii.eqb a "/"); reflexivity.
Qed.

(** The basename holds no slash. *)
Lemma basename_no_slash (p : string) : py.rfind "/" (py.basename p) = (-1)%Z.
Proof.
  induction p as [|a rest IH]; [reflexivity|].
  rewrite basename_cons.
  pose proof (rfind_range "/" rest) as Hrange.
  destruct (0 <=? py.rfind "/" rest)%Z eqn:Hr; [done|].
  apply Z.leb_gt in Hr.
  destruct (Ascii.eqb a "/") eqn:Ha; [lia|].
  cbn [py.rfind]. rewrite Ha.
  destruct (0 <=? py.rfind "/" rest)%Z eqn:Hr'; [apply Z.leb_le in Hr'|]; lia.
Qed.

(** The identifier is its basename preceded by nothing or by a directory
    part that ends with a slash. *)
Lemma basename_suffix (p : string) :
  ∃ dir,
    p = String.append dir (py.basename p) ∧
    (dir = EmptyString ∨ ∃ dir', dir = String.append dir' "/").
Proof.
  induction p as [|a rest IH]; [exists EmptyString; by split; [|left]|].
  rewrite basename_cons.
  destruct (0 <=? py.rfind "/" rest)%Z eqn:Hr.
  - destruct IH as (dir & Hrest & Hdir).
    exists (String a dir). split; [cbn; by rewrite <- Hrest|].
    right. destruct Hdir as [->|[dir' ->]].
    + cbn in Hrest. apply Z.leb_le in Hr.
      pose proof (basename_no_slash rest) as Hno.
      rewrite <- Hrest in Hno. lia.
    + by exists (String a dir').
  - destruct (Ascii.eqb a "/") eqn:Ha.
    + apply Ascii.eqb_eq in Ha as ->.
      exists "/"%string. split; [done|]. right. by exists EmptyString.
    + exists EmptyString. split; [done|]. by left.
Qed.

(** ** The three-column projection *)

Lemma column_Ok (m : list (list float64)) (b c : nat) (v : float64) :
  (row ← m !! b; row !! c) = Some v → column m b c = Ok v.
Proof.
  unfold column, py.getitem, py.float.
  destruct (m !! b) as [row|]; cbn; [|discriminate].
  by intros ->.
Qed.

Lemma column_Raise (m : list (list float64)) (b c : nat) :
  (row ← m !! b; row !! c) = None → column m b c = Raise IndexError.
Proof.
  unfold column, py.getitem.
  destruct (m !! b) as [row|]; cbn; [|done].
  by intros ->.
Qed.

Lemma column_cases (m : list (list float64)) (b c : nat) :
  column m b c = Raise IndexError ∨ ∃ v, column m b c = Ok v.
Proof.
  destruct (row ← m !! b; row !! c) as [v|] eqn:H.
  - right. exists v. by apply column_Ok.
  - left. by apply column_Raise.
Qed.

Lemma format_Ok (ident : string) (m : list (list float64)) (c0 c1 c2 : float64) :
  column m 0 1 = Ok c0 → column m 1 1 = Ok c1 → column m 2 1 = Ok c2 →
  format (ident, m) = Ok (py.basename ident, c0, c1, c2).
Proof. unfold format. cbn. by intros -> -> ->. Qed.

Lemma format_Raise (ident : string) (m : list (list float64)) (b : nat) :
  b < 3 → column m b 1 = Raise IndexError →
  format (ident, m) = Raise IndexError.
Proof.
  intros Hb Hcol. unfold format. cbn.
  destruct (column_cases m 0 1) as [H0|[v0 H0]]; rewrite H0; cbn; [done|].
  destruct (column_cases m 1 1) as [H1|[v1 H1]]; rewrite H1; cbn; [done|].
  destruct (column_cases m 2 1) as [H2|[v2 H2]]; rewrite H2; cbn; [done|].
  destruct b as [|[|[|b]]]; [congruence..|lia].
Qed.

(** **** Claim C6.
    When the means matrix has been computed and the file has fewer than
    three stacked images or fewer than two channels, the three-column
    projection refers to an index that is not in the matrix, and it fails
    with the [IndexError] of the list indexing. *)
Theorem format_index_error (n nrows ncols ndims : nat) (ident : string)
    (x : list byte) (m : list (list float64)) :
  _mean n nrows ncols ndims x = Ok m →
  n < 3 ∨ ndims < 2 →
  format (ident, m) = Raise IndexError.
Proof.
  intros Hm Hsmall. apply mean_Ok_inv in Hm as ->.
  destruct (decide (n < 3)) as [Hn|Hn].
  - apply (format_Raise _ _ 2); [lia|]. apply column_Raise.
    rewrite lookup_ge_None_2; [done|]. rewrite means_matrix_length. lia.
  - apply (format_Raise _ _ 0); [lia|]. apply column_Raise.
    rewrite means_matrix_lookup by lia. cbn.
    apply lookup_ge_None_2. rewrite length_fmap, length_seq. lia.
Qed.

Lemma format_index_error_witness :
  format ("a/b.raw"%string, [[Val 1; Val 2]; [Val 3; Val 4]]) = Raise IndexError.
Proof.
  apply (format_index_error 2 1 1 2 "a/b.raw" [x01; x02; x03; x04]);
    [reflexivity|lia].
Defined.

(** **** Claim C8.
    For a decoded image of a positive number of rows and columns, every
    channel mean [_perDim] computes is a number between 0 and 255. *)
Theorem perDim_bounds (n nrows ncols ndims : nat) (x : list byte)
    (blocks : list np.ndarray3) (i : nat) (img : np.ndarray3) :
  decode n nrows ncols ndims x = Ok blocks →
  blocks !! i = Some img →
  0 < nrows → 0 < ncols →
  ∃ ms,
    _perDim img ndims = Ok ms ∧
    length ms = ndims ∧
    ∀ d v, ms !! d = Some v → ∃ q, v = Val q ∧ (0 <= q)%Q ∧ (q <= 255)%Q.
Proof.
  intros Hdec Himg Hr Hc.
  destruct (decode_lookup _ _ _ _ _ _ _ _ Hdec Himg) as [Hi Hb].
  eexists. split; [by eapply perDim_block|].
  split; [by rewrite length_fmap, length_seq|].
  intros d v Hv.
  apply list_lookup_fmap_Some in Hv as (d' & -> & _).
  destruct (mean_flat_nonempty (channel_samples nrows ncols ndims x i d'))
    as (q & Hq & _ & Hlo & Hhi).
  { unfold channel_samples. rewrite length_fmap, length_seq. nia. }
  exists q. by repeat split.
Qed.

Lemma perDim_bounds_witness :
  ∃ ms,
    _perDim (np.mk_ndarray3 (1, 2, 2) [[[x01; xff]; [x03; xff]]]) 2 = Ok ms ∧
    ∀ d v, ms !! d = Some v → ∃ q, v = Val q ∧ (0 <= q)%Q ∧ (q <= 255)%Q.
Proof.
  destruct (perDim_bounds 1 1 2 2 [x01; xff; x03; xff]
              [np.mk_ndarray3 (1, 2, 2) [[[x01; xff]; [x03; xff]]]]
              0 (np.mk_ndarray3 (1, 2, 2) [[[x01; xff]; [x03; xff]]]))
    as (ms & H1 & _ & H2); [reflexivity|reflexivity|lia|lia|].
  exists ms. by split.
Defined.

(** ** The per-file pipeline *)

Section Pipeline.

Variables n nrows ncols ndims : nat.

Local Abbreviation k := (block_size nrows ncols ndims).
Local Abbreviation _mean := (_mean n nrows ncols ndims).
Local Abbreviation mean := (mean n nrows ncols ndims).
Local Abbreviation channel_mean := (channel_mean nrows ncols ndims).
Local Abbreviation df_row := (df_row n nrows ncols ndims).

(** The element of [mean_rdd] for one file. *)
Lemma mean_rdd_fmap (imgpair : list (string * list byte)) :
  mapValues _mean (img_rdd (new imgpair))
  = (fun xy : string * list byte => m ← _mean xy.2; mret (xy.1, m)) <$> imgpair.
Proof.
  unfold mapValues, rdd_map, new, _getImgRDD. cbn.
  rewrite <- list_fmap_compose. reflexivity.
Qed.

Lemma mean_asrdd (imgpair : list (string * list byte)) :
  mean (new imgpair) false
  = AsRDD ((fun xy : string * list byte => m ← _mean xy.2; mret (xy.1, m))
             <$> imgpair).
Proof. unfold hic.mean. cbn [negb]. by rewrite mean_rdd_fmap. Qed.

Lemma mean_asdf (imgpair : list (string * list byte)) :
  mean (new imgpair) true = AsDF (df_row <$> imgpair).
Proof.
  unfold hic.mean. cbn [negb]. rewrite mean_rdd_fmap.
  unfold createDataFrame, rdd_map. rewrite <- !list_fmap_compose.
  f_equal. apply list_fmap_ext. intros _ [ident buf] _. unfold hic.df_row. cbn.
  destruct (_mean buf) as [m|e]; reflexivity.
Qed.

Lemma df_row_Raise (ident : string) (x : list byte) m e :
  _mean x = Ok m → format (ident, m) = Raise e →
  df_row (ident, x) = Raise e.
Proof.
  intros Hm Hf. unfold hic.df_row. cbn [fst snd].
  rewrite Hm. cbn. by rewrite Hf.
Qed.

Lemma block_channel_mean_intro (x : list byte) (i d : nat) :
  n * k ≤ length x → i < n → d < ndims →
  block_channel_mean n nrows ncols ndims x i d (channel_mean x i d).
Proof.
  intros Hlen Hi Hd.
  destruct (decode_Ok n nrows ncols ndims x Hlen) as [blocks Hdec].
  destruct (decode_lookup_lt _ _ _ _ _ _ i Hdec Hi) as (img & Himg & Hb).
  exists blocks, img. eexists. split; [done|]. split; [done|].
  split; [by eapply perDim_block|].
  by rewrite list_lookup_fmap, lookup_seq_lt.
Qed.

End Pipeline.

(** **** Claim C10.
    With [asdf=False] the result is the RDD of the means matrices, whatever
    the three-column projection would do with them: for a file whose buffer
    holds the [n * nrows * ncols * ndims] samples, the element is the
    file's identifier paired with the full matrix of channel means, a list
    of exactly [n] entries, one per stacked image in stack order, each a
    list of exactly [ndims] channel means; entry [[i][d]] is the mean of
    the samples of channel [d] of image [i], those at the offsets
    [i * nrows*ncols*ndims + p * ndims + d] of the buffer. *)
Theorem mean_rdd_matrix (n nrows ncols ndims : nat)
    (imgpair : list (string * list byte)) (j : nat)
    (ident : string) (buf : list byte) :
  imgpair !! j = Some (ident, buf) →
  n * (nrows * ncols * ndims) ≤ length buf →
  ∃ r m,
    mean n nrows ncols ndims (new imgpair) false = AsRDD r ∧
    length r = length imgpair ∧
    r !! j = Some (Ok (ident, m)) ∧
    _mean n nrows ncols ndims buf = Ok m ∧
    m = means_matrix n nrows ncols ndims buf ∧
    length m = n ∧
    (∀ row, row ∈ m → length row = ndims) ∧
    (∀ i d, i < n → d < ndims →
       (row ← m !! i; row !! d) = Some (channel_mean nrows ncols ndims buf i d) ∧
       block_channel_mean n nrows ncols ndims buf i d
         (channel_mean nrows ncols ndims buf i d)).
Proof.
  intros Hj Hlen. eexists. exists (means_matrix n nrows ncols ndims buf).
  pose proof (mean_Ok n nrows ncols ndims buf Hlen) as Hm.
  split; [apply mean_asrdd|].
  split; [by rewrite length_fmap|].
  split; [rewrite list_lookup_fmap, Hj; cbn; by rewrite Hm|].
  split; [done|]. split; [done|].
  split; [apply means_matrix_length|].
  split; [apply means_matrix_row|].
  intros i d Hi Hd. split; [by apply means_matrix_entry|].
  by apply block_channel_mean_intro.
Qed.

Lemma mean_rdd_matrix_witness :
  ∃ r,
    mean 2 1 1 2 (new [("a/b.raw"%string, [x01; x02; x03; x04])]) false = AsRDD r ∧
    r !! 0 = Some (Ok ("a/b.raw"%string, [[Val 1; Val 2]; [Val 3; Val 4]])).
Proof.
  destruct (mean_rdd_matrix 2 1 1 2 [("a/b.raw"%string, [x01; x02; x03; x04])]
              0 "a/b.raw" [x01; x02; x03; x04])
    as (r & m & H1 & _ & H2 & _ & H3 & _); [reflexivity|simpl; lia|].
  exists r. split; [done|]. rewrite H2, H3. reflexivity.
Defined.

(** **** Claim C1.
    With [asdf=True], for a file with at least three stacked images of at
    least two channels whose buffer holds the [n * nrows * ncols * ndims]
    samples, the row of the data frame has [Filename] equal to the basename
    of the file's identifier, [CH0] equal to the channel-1 mean of image 0,
    [CH1] to the channel-1 mean of image 1 and [CH2] to the channel-1 mean
    of image 2. *)
Theorem mean_df_row (n nrows ncols ndims : nat)
    (imgpair : list (string * list byte)) (j : nat)
    (ident : string) (buf : list byte) :
  imgpair !! j = Some (ident, buf) →
  3 ≤ n → 2 ≤ ndims →
  n * (nrows * ncols * ndims) ≤ length buf →
  ∃ df row,
    mean n nrows ncols ndims (new imgpair) true = AsDF df ∧
    length df = length imgpair ∧
    df !! j = Some (Ok row) ∧
    Filename row = py.basename ident ∧
    block_channel_mean n nrows ncols ndims buf 0 1 (CH0 row) ∧
    block_channel_mean n nrows ncols ndims buf 1 1 (CH1 row) ∧
    block_channel_mean n nrows ncols ndims buf 2 1 (CH2 row) ∧
    CH0 row = channel_mean nrows ncols ndims buf 0 1 ∧
    CH1 row = channel_mean nrows ncols ndims buf 1 1 ∧
    CH2 row = channel_mean nrows ncols ndims buf 2 1.
Proof.
  intros Hj Hn Hd Hlen. eexists.
  exists (mk_Row (py.basename ident)
            (channel_mean nrows ncols ndims buf 0 1)
            (channel_mean nrows ncols ndims buf 1 1)
            (channel_mean nrows ncols ndims buf 2 1)).
  split; [apply mean_asdf|].
  split; [by rewrite length_fmap|].
  split.
  { rewrite list_lookup_fmap, Hj. cbn. unfold df_row. cbn.
    rewrite (mean_Ok n nrows ncols ndims buf Hlen). cbn.
    erewrite format_Ok;
      [reflexivity|apply column_Ok, means_matrix_entry; lia..]. }
  cbn. split; [done|].
  repeat split; apply block_channel_mean_intro; (done || lia).
Qed.

Lemma mean_df_row_witness :
  ∃ df row,
    mean 3 1 1 2 (new [("a/b.raw"%string, [x01; x02; x03; x04; x05; x06])]) true
    = AsDF df ∧
    df !! 0 = Some (Ok row) ∧
    row = mk_Row "b.raw" (Val 2) (Val 4) (Val 6).
Proof.
  destruct (mean_df_row 3 1 1 2
              [("a/b.raw"%string, [x01; x02; x03; x04; x05; x06])]
              0 "a/b.raw" [x01; x02; x03; x04; x05; x06])
    as (df & row & H1 & _ & H2 & H3 & _ & _ & _ & H4 & H5 & H6);
    [reflexivity|lia|lia|simpl; lia|].
  exists df, row. split; [done|]. split; [done|].
  destruct row as [f c0 c1 c2]. cbn in *. by subst.
Defined.

(** **** Claim C9.
    Only the first [n * nrows * ncols * ndims] samples of a buffer matter:
    two buffers that agree on this prefix (those of at least that length in
    particular) give the same means, and, under the same identifier and
    among the same other files, the same result of [mean] in either output
    form; what follows the prefix is ignored. *)
Theorem mean_prefix_only (n nrows ncols ndims : nat) (x1 x2 : list byte)
    (ident : string) (before after : list (string * list byte)) (asdf : bool) :
  take (n * (nrows * ncols * ndims)) x1 = take (n * (nrows * ncols * ndims)) x2 →
  _mean n nrows ncols ndims x1 = _mean n nrows ncols ndims x2 ∧
  mean n nrows ncols ndims (new (before ++ (ident, x1) :: after)) asdf
  = mean n nrows ncols ndims (new (before ++ (ident, x2) :: after)) asdf.
Proof.
  intros Hpre.
  assert (_mean n nrows ncols ndims x1 = _mean n nrows ncols ndims x2) as Heq.
  { rewrite <- (mean_take n nrows ncols ndims x1).
    rewrite <- (mean_take n nrows ncols ndims x2).
    unfold block_size. by rewrite Hpre. }
  split; [done|].
  destruct asdf.
  - rewrite !mean_asdf, !fmap_app, !fmap_cons.
    unfold df_row at 2 4. cbn. by rewrite Heq.
  - rewrite !mean_asrdd, !fmap_app, !fmap_cons. cbn. by rewrite Heq.
Qed.

Lemma mean_prefix_only_witness :
  _mean 2 1 1 2 [x01; x02; x03; x04; x05] = _mean 2 1 1 2 [x01; x02; x03; x04; xff; xfe] ∧
  mean 2 1 1 2 (new [("a/b.raw"%string, [x01; x02; x03; x04; x05])]) false
  = mean 2 1 1 2 (new [("a/b.raw"%string, [x01; x02; x03; x04; xff; xfe])]) false.
Proof.
  apply (mean_prefix_only 2 1 1 2 [x01; x02; x03; x04; x05]
           [x01; x02; x03; x04; xff; xfe] "a/b.raw" [] [] false).
  reflexivity.
Defined.

(** **** Claim C7.
    The scenario [nrows=2, ncols=2, ndims=3, n=2] on a 24-byte buffer whose
    channel-1 samples are 10, 20, 30, 40 in image 0 and 50, 60, 70, 80 in
    image 1, whatever the other sixteen bytes: the means matrix has 25 at
    [[0][1]] and 65 at [[1][1]]; in the projection the [CH0] column
    evaluates to 25, the [CH1] column to 65, and the [CH2] column raises
    [IndexError], there being no image of index 2, so that no row is
    produced for the file. *)
Theorem scenario_2x2x3 (ident : string)
    (a0 a2 a3 a5 a6 a8 a9 a11 b0 b2 b3 b5 b6 b8 b9 b11 : byte) :
  let buf := [a0; x0a; a2;  a3; x14; a5;  a6; x1e; a8;  a9; x28; a11;
              b0; x32; b2;  b3; x3c; b5;  b6; x46; b8;  b9; x50; b11] in
  ∃ m,
    length buf = 24 ∧
    _mean 2 2 2 3 buf = Ok m ∧
    (row ← m !! 0; row !! 1) = Some (Val 25) ∧
    (row ← m !! 1; row !! 1) = Some (Val 65) ∧
    column m 0 1 = Ok (Val 25) ∧
    column m 1 1 = Ok (Val 65) ∧
    column m 2 1 = Raise IndexError ∧
    format (ident, m) = Raise IndexError ∧
    mean 2 2 2 3 (new [(ident, buf)]) true = AsDF [Raise IndexError] ∧
    mean 2 2 2 3 (new [(ident, buf)]) false = AsRDD [Ok (ident, m)].
Proof.
  intros buf. exists (means_matrix 2 2 2 3 buf).
  assert (_mean 2 2 2 3 buf = Ok (means_matrix 2 2 2 3 buf)) as Hm.
  { apply mean_Ok. cbn. lia. }
  assert (format (ident, means_matrix 2 2 2 3 buf) = Raise IndexError) as Hf.
  { by apply (format_Raise _ _ 2); [lia|]. }
  split; [reflexivity|]. split; [done|].
  split; [reflexivity|]. split; [reflexivity|].
  split; [reflexivity|]. split; [reflexivity|].
  split; [reflexivity|]. split; [done|].
  split.
  - rewrite mean_asdf. cbn [fmap list_fmap].
    by rewrite (df_row_Raise _ _ _ _ _ _ _ _ Hm Hf).
  - rewrite mean_asrdd. cbn [fmap list_fmap fst snd]. by rewrite Hm.
Qed.

(** * Further properties of the code *)

(** ** Outcomes of [_mean] and of the data-frame row *)

Section Outcomes.

Variables n nrows ncols ndims : nat.

Local Abbreviation k := (block_size nrows ncols ndims).
Local Abbreviation _mean := (_mean n nrows ncols ndims).
Local Abbreviation mean := (mean n nrows ncols ndims).
Local Abbreviation df_row := (df_row n nrows ncols ndims).
Local Abbreviation means_matrix := (means_matrix n nrows ncols ndims).
Local Abbreviation channel_mean := (channel_mean nrows ncols ndims).

Lemma format_matrix_Ok (ident : string) (x : list byte) :
  3 ≤ n → 2 ≤ ndims →
  format (ident, means_matrix x)
  = Ok (py.basename ident, channel_mean x 0 1, channel_mean x 1 1,
        channel_mean x 2 1).
Proof.
  intros Hn Hd.
  apply format_Ok; apply column_Ok, means_matrix_entry; lia.
Qed.

Lemma format_matrix_Raise (ident : string) (x : list byte) :
  n < 3 ∨ ndims < 2 → format (ident, means_matrix x) = Raise IndexError.
Proof.
  intros Hsmall. destruct (decide (n < 3)) as [Hn|Hn].
  - apply (format_Raise _ _ 2); [lia|]. apply column_Raise.
    rewrite lookup_ge_None_2; [done|]. rewrite means_matrix_length. lia.
  - apply (format_Raise _ _ 0); [lia|]. apply column_Raise.
    rewrite means_matrix_lookup by lia. cbn.
    apply lookup_ge_None_2. rewrite length_fmap, length_seq. lia.
Qed.

Lemma df_row_short (ident : string) (x : list byte) :
  length x < n * k → df_row (ident, x) = Raise ValueError.
Proof.
  intros Hlen. unfold hic.df_row. cbn [fst snd].
  by rewrite mean_short.
Qed.

Lemma df_row_small (ident : string) (x : list byte) :
  n * k ≤ length x → n < 3 ∨ ndims < 2 →
  df_row (ident, x) = Raise IndexError.
Proof.
  intros Hlen Hsmall. eapply df_row_Raise; [by apply mean_Ok|].
  by apply format_matrix_Raise.
Qed.

Lemma df_row_Ok (ident : string) (x : list byte) :
  n * k ≤ length x → 3 ≤ n → 2 ≤ ndims →
  df_row (ident, x)
  = Ok (mk_Row (py.basename ident) (channel_mean x 0 1) (channel_mean x 1 1)
          (channel_mean x 2 1)).
Proof.
  intros Hlen Hn Hd. unfold hic.df_row. cbn [fst snd].
  rewrite mean_Ok by done. cbn.
  by rewrite format_matrix_Ok.
Qed.

Lemma df_row_Ok_inv (ident : string) (x : list byte) (row : Row) :
  df_row (ident, x) = Ok row →
  n * k ≤ length x ∧ 3 ≤ n ∧ 2 ≤ ndims ∧
  row = mk_Row (py.basename ident) (channel_mean x 0 1) (channel_mean x 1 1)
          (channel_mean x 2 1).
Proof.
  intros Hrow.
  destruct (decide (length x < n * k)) as [Hlen|Hlen].
  { rewrite df_row_short in Hrow by done. discriminate. }
  destruct (decide (n < 3 ∨ ndims < 2)) as [Hsmall|Hsmall].
  { rewrite df_row_small in Hrow by (done || lia). discriminate. }
  rewrite df_row_Ok in Hrow by lia.
  repeat split; (lia || congruence).
Qed.

Lemma mean_one_file (ident : string) (x : list byte) :
  mean (new [(ident, x)]) true = AsDF [df_row (ident, x)].
Proof. by rewrite mean_asdf. Qed.

End Outcomes.

Ltac outcome :=
  repeat split; intros;
  repeat match goal with H : ∃ _, _ |- _ => destruct H end;
  first [ done | lia | discriminate | by eexists
        | exfalso; lia | exfalso; tauto ].

(** **** Property X1.
    [_mean] succeeds exactly when the buffer holds at least
    [n * nrows * ncols * ndims] samples (a longer buffer is accepted, its
    tail unread), raises [ValueError] exactly when it holds fewer, and
    never raises [IndexError]: the channel indexing inside [_perDim] is
    always within the image. *)
Theorem mean_outcome (n nrows ncols ndims : nat) (x : list byte) :
  ((∃ m, _mean n nrows ncols ndims x = Ok m) ↔
     n * (nrows * ncols * ndims) ≤ length x) ∧
  (_mean n nrows ncols ndims x = Raise ValueError ↔
     length x < n * (nrows * ncols * ndims)) ∧
  _mean n nrows ncols ndims x ≠ Raise IndexError.
Proof.
  destruct (decide (length x < n * (nrows * ncols * ndims))) as [Hlen|Hlen].
  - pose proof (mean_short n nrows ncols ndims x Hlen) as Hm.
    rewrite Hm. repeat split; try done.
    + intros [m [=]].
    + lia.
  - pose proof (mean_Ok n nrows ncols ndims x) as Hm.
    unfold block_size in Hm. rewrite Hm by lia.
    repeat split; try done; try lia.
    by eexists.
Qed.

(** **** Property X2.
    The data-frame row of a file is decided by the buffer length first and
    by the geometry second: a buffer shorter than [n * nrows * ncols * ndims]
    gives [ValueError], also when there are fewer than three images; a long
    enough buffer with fewer than three images or fewer than two channels
    gives [IndexError]; a row is produced exactly when the buffer is long
    enough and there are at least three images of at least two channels. *)
Theorem df_outcome (n nrows ncols ndims : nat) (ident : string) (x : list byte) :
  (mean n nrows ncols ndims (new [(ident, x)]) true = AsDF [Raise ValueError] ↔
     length x < n * (nrows * ncols * ndims)) ∧
  (mean n nrows ncols ndims (new [(ident, x)]) true = AsDF [Raise IndexError] ↔
     n * (nrows * ncols * ndims) ≤ length x ∧ (n < 3 ∨ ndims < 2)) ∧
  ((∃ row, mean n nrows ncols ndims (new [(ident, x)]) true = AsDF [Ok row]) ↔
     n * (nrows * ncols * ndims) ≤ length x ∧ 3 ≤ n ∧ 2 ≤ ndims).
Proof.
  rewrite mean_one_file.
  destruct (decide (length x < n * (nrows * ncols * ndims))) as [Hlen|Hlen].
  { rewrite df_row_short by done. outcome. }
  destruct (decide (n < 3 ∨ ndims < 2)) as [Hsmall|Hsmall].
  { rewrite df_row_small by (done || unfold block_size; lia). outcome. }
  rewrite df_row_Ok by (unfold block_size; lia). outcome.
Qed.

(** ** What the means depend on *)

Section Samples.

Variables n nrows ncols ndims : nat.

Local Abbreviation k := (block_size nrows ncols ndims).
Local Abbreviation channel_samples := (channel_samples nrows ncols ndims).
Local Abbreviation channel_mean := (channel_mean nrows ncols ndims).
Local Abbreviation means_matrix := (means_matrix n nrows ncols ndims).

Lemma channel_samples_length (x : list byte) (i d : nat) :
  length (channel_samples x i d) = nrows * ncols.
Proof. unfold hic.channel_samples. by rewrite length_fmap, length_seq. Qed.

Lemma channel_samples_ext (x1 x2 : list byte) (i d : nat) :
  (∀ p, p < nrows * ncols →
     x1 !! (i * k + p * ndims + d) = x2 !! (i * k + p * ndims + d)) →
  channel_samples x1 i d = channel_samples x2 i d.
Proof.
  intros Heq. unfold hic.channel_samples. apply list_fmap_ext.
  intros j p [-> Hp]%lookup_seq. cbn. by rewrite Heq.
Qed.

Lemma channel_samples_const (x : list byte) (i d : nat) (b : byte) :
  (∀ p, p < nrows * ncols → x !! (i * k + p * ndims + d) = Some b) →
  channel_samples x i d = replicate (nrows * ncols) b.
Proof.
  intros Hb. unfold hic.channel_samples.
  apply list_eq. intros j.
  rewrite list_lookup_fmap.
  destruct (decide (j < nrows * ncols)) as [Hj|Hj].
  - rewrite lookup_seq_lt, lookup_replicate_2 by done.
    cbn. by rewrite Hb.
  - rewrite lookup_seq_ge by lia. symmetry.
    apply lookup_replicate_None. lia.
Qed.

Lemma channel_mean_empty (x : list byte) (i d : nat) :
  nrows = 0 ∨ ncols = 0 → channel_mean x i d = NaN.
Proof.
  intros Hz. apply mean_flat_empty. rewrite channel_samples_length.
  destruct Hz as [-> | ->]; lia.
Qed.

Lemma means_matrix_empty (x : list byte) :
  nrows = 0 ∨ ncols = 0 →
  means_matrix x = replicate n (replicate ndims NaN).
Proof.
  intros Hz. unfold hic.means_matrix.
  transitivity (replicate (length (seq 0 n)) (replicate ndims NaN));
    [|by rewrite length_seq].
  apply const_fmap. intros _ i _.
  transitivity (replicate (length (seq 0 ndims)) NaN);
    [|by rewrite length_seq].
  apply const_fmap. intros _ d _. by apply channel_mean_empty.
Qed.

End Samples.

Lemma sum_replicate (cnt : nat) (b : byte) :
  np.sum (replicate cnt b) = (Z.of_nat cnt * Z.of_N (Byte.to_N b))%Z.
Proof.
  induction cnt as [|cnt IH]; [reflexivity|].
  cbn [replicate np.sum foldr]. fold (np.sum (replicate cnt b)).
  rewrite IH. lia.
Qed.

Lemma mean_flat_replicate (cnt : nat) (b : byte) :
  0 < cnt →
  np.mean_flat (replicate cnt b) = Val (inject_Z (Z.of_N (Byte.to_N b))).
Proof.
  intros Hcnt. unfold np.mean_flat.
  rewrite length_replicate, sum_replicate.
  destruct cnt as [|m]; [lia|]. f_equal.
  pose proof (Byte.to_N_bounded b).
  apply div64_exact; lia.
Qed.

(** **** Property X3.
    An image geometry without pixels ([nrows = 0] or [ncols = 0]) is not
    an error: whatever the buffer, [_mean] returns [n] rows of [ndims]
    entries, every one of them [nan]. *)
Theorem mean_no_pixels_nan (n nrows ncols ndims : nat) (x : list byte) :
  nrows = 0 ∨ ncols = 0 →
  _mean n nrows ncols ndims x = Ok (replicate n (replicate ndims NaN)).
Proof.
  intros Hz. rewrite mean_Ok.
  - by rewrite means_matrix_empty.
  - unfold block_size. destruct Hz as [-> | ->]; lia.
Qed.

Lemma mean_no_pixels_nan_witness :
  _mean 2 3 0 2 [x01; x02; x03] = Ok [[NaN; NaN]; [NaN; NaN]].
Proof. apply (mean_no_pixels_nan 2 3 0 2 [x01; x02; x03]). right. reflexivity. Defined.

(** **** Property X4.
    When every sample of channel [d] of stacked image [i] is the same byte,
    the mean [_mean] reports for that image and channel is exactly that
    byte's value. *)
Theorem mean_constant_channel (n nrows ncols ndims : nat) (x : list byte)
    (i d : nat) (b : byte) :
  n * (nrows * ncols * ndims) ≤ length x →
  i < n → d < ndims → 0 < nrows → 0 < ncols →
  (∀ p, p < nrows * ncols →
     x !! (i * (nrows * ncols * ndims) + p * ndims + d) = Some b) →
  ∃ m,
    _mean n nrows ncols ndims x = Ok m ∧
    (row ← m !! i; row !! d) = Some (Val (inject_Z (Z.of_N (Byte.to_N b)))).
Proof.
  intros Hlen Hi Hd Hr Hc Hb.
  exists (means_matrix n nrows ncols ndims x).
  split; [by apply mean_Ok|].
  rewrite means_matrix_entry by done. f_equal.
  unfold channel_mean. rewrite (channel_samples_const _ _ _ _ _ _ b) by done.
  apply mean_flat_replicate. nia.
Qed.

Lemma mean_constant_channel_witness :
  ∃ m,
    _mean 1 1 2 2 [x01; x07; x02; x07] = Ok m ∧
    (row ← m !! 0; row !! 1) = Some (Val 7).
Proof.
  apply (mean_constant_channel 1 1 2 2 [x01; x07; x02; x07] 0 1 x07);
    [simpl; lia|lia|lia|lia|lia|].
  intros p Hp. destruct p as [|[|p]]; [reflexivity|reflexivity|lia].
Defined.

(** **** Property X5.
    The mean of channel [d] of stacked image [i] is read from the samples
    at the offsets [i * nrows*ncols*ndims + p * ndims + d] alone: two
    buffers, both long enough, that agree at these offsets give the same
    entry [[i][d]], whatever else they hold. *)
Theorem mean_entry_local (n nrows ncols ndims : nat) (x1 x2 : list byte)
    (i d : nat) :
  n * (nrows * ncols * ndims) ≤ length x1 →
  n * (nrows * ncols * ndims) ≤ length x2 →
  i < n → d < ndims →
  (∀ p, p < nrows * ncols →
     x1 !! (i * (nrows * ncols * ndims) + p * ndims + d)
     = x2 !! (i * (nrows * ncols * ndims) + p * ndims + d)) →
  ∃ m1 m2 v,
    _mean n nrows ncols ndims x1 = Ok m1 ∧
    _mean n nrows ncols ndims x2 = Ok m2 ∧
    (row ← m1 !! i; row !! d) = Some v ∧
    (row ← m2 !! i; row !! d) = Some v.
Proof.
  intros Hl1 Hl2 Hi Hd Heq.
  exists (means_matrix n nrows ncols ndims x1), (means_matrix n nrows ncols ndims x2).
  exists (channel_mean nrows ncols ndims x1 i d).
  split; [by apply mean_Ok|]. split; [by apply mean_Ok|].
  rewrite !means_matrix_entry by done. split; [done|].
  unfold channel_mean. by rewrite (channel_samples_ext _ _ _ x1 x2).
Qed.

Lemma mean_entry_local_witness :
  ∃ m1 m2 v,
    _mean 1 1 2 2 [x01; x07; x02; x09] = Ok m1 ∧
    _mean 1 1 2 2 [xff; x07; xfe; x09; x00] = Ok m2 ∧
    (row ← m1 !! 0; row !! 1) = Some v ∧
    (row ← m2 !! 0; row !! 1) = Some v.
Proof.
  apply (mean_entry_local 1 1 2 2 [x01; x07; x02; x09]
           [xff; x07; xfe; x09; x00] 0 1);
    [simpl; lia|simpl; lia|lia|lia|].
  intros p Hp. destruct p as [|[|p]]; [reflexivity|reflexivity|lia].
Defined.

(** ** What the data-frame row depends on *)

(** **** Property X6.
    The data-frame row reads nothing but the basename of the identifier and
    the channel-1 samples of the stacked images 0, 1 and 2: two files with
    long enough buffers that agree on these give the same result of [mean],
    whatever their other channels, their further images and the directory
    part of their identifiers. *)
Theorem df_reads_channel_one_only (n nrows ncols ndims : nat)
    (ident1 ident2 : string) (x1 x2 : list byte) :
  n * (nrows * ncols * ndims) ≤ length x1 →
  n * (nrows * ncols * ndims) ≤ length x2 →
  py.basename ident1 = py.basename ident2 →
  (∀ i p, i < 3 → p < nrows * ncols →
     x1 !! (i * (nrows * ncols * ndims) + p * ndims + 1)
     = x2 !! (i * (nrows * ncols * ndims) + p * ndims + 1)) →
  mean n nrows ncols ndims (new [(ident1, x1)]) true
  = mean n nrows ncols ndims (new [(ident2, x2)]) true.
Proof.
  intros Hl1 Hl2 Hbase Heq. rewrite !mean_one_file. do 2 f_equal.
  destruct (decide (n < 3 ∨ ndims < 2)) as [Hsmall|Hsmall].
  { by rewrite !df_row_small. }
  rewrite !df_row_Ok by (done || lia). rewrite Hbase.
  unfold channel_mean.
  by rewrite !(channel_samples_ext _ _ _ x1 x2) by (intros; apply Heq; lia).
Qed.

Lemma df_reads_channel_one_only_witness :
  mean 3 1 1 2 (new [("a/f.raw"%string, [x01; x02; x03; x04; x05; x06])]) true
  = mean 3 1 1 2 (new [("b/c/f.raw"%string, [xff; x02; xfe; x04; xfd; x06; x00])]) true.
Proof.
  apply (df_reads_channel_one_only 3 1 1 2 "a/f.raw" "b/c/f.raw"
           [x01; x02; x03; x04; x05; x06] [xff; x02; xfe; x04; xfd; x06; x00]);
    [simpl; lia|simpl; lia|reflexivity|].
  intros i p Hi Hp. assert (p = 0) as -> by lia.
  destruct i as [|[|[|i]]]; [reflexivity|reflexivity|reflexivity|lia].
Defined.

Section Files.

Variables n nrows ncols ndims : nat.

Local Abbreviation mean := (mean n nrows ncols ndims).
Local Abbreviation df_row := (df_row n nrows ncols ndims).

Lemma mean_asdf_lookup (imgpair : list (string * list byte)) df j ident x :
  mean (new imgpair) true = AsDF df →
  imgpair !! j = Some (ident, x) →
  df !! j = Some (df_row (ident, x)).
Proof.
  rewrite mean_asdf. intros [= <-] Hj.
  by rewrite list_lookup_fmap, Hj.
Qed.

End Files.

(** **** Property X7.
    Whenever a row is produced for a file, its [Filename] holds no slash,
    and the file's identifier is that [Filename] preceded by nothing or by
    a directory part that ends with a slash. *)
Theorem df_filename_no_slash (n nrows ncols ndims : nat)
    (imgpair : list (string * list byte)) (df : list (result Row)) (j : nat)
    (ident : string) (x : list byte) (row : Row) :
  imgpair !! j = Some (ident, x) →
  mean n nrows ncols ndims (new imgpair) true = AsDF df →
  df !! j = Some (Ok row) →
  py.rfind "/" (Filename row) = (-1)%Z ∧
  ∃ dir,
    ident = String.append dir (Filename row) ∧
    (dir = EmptyString ∨ ∃ dir', dir = String.append dir' "/").
Proof.
  intros Hj Hdf Hrow.
  rewrite (mean_asdf_lookup _ _ _ _ _ _ _ _ _ Hdf Hj) in Hrow.
  injection Hrow as Hrow.
  apply df_row_Ok_inv in Hrow as (_ & _ & _ & ->). cbn [Filename].
  split; [apply basename_no_slash|apply basename_suffix].
Qed.

Lemma df_filename_no_slash_witness :
  py.rfind "/" "f.raw" = (-1)%Z ∧
  ∃ dir,
    "a/b/f.raw"%string = String.append dir "f.raw" ∧
    (dir = EmptyString ∨ ∃ dir', dir = String.append dir' "/").
Proof.
  apply (df_filename_no_slash 3 1 1 2
           [("a/b/f.raw"%string, [x01; x02; x03; x04; x05; x06])]
           [Ok (mk_Row "f.raw" (Val 2) (Val 4) (Val 6))] 0
           "a/b/f.raw" [x01; x02; x03; x04; x05; x06]
           (mk_Row "f.raw" (Val 2) (Val 4) (Val 6)));
    reflexivity.
Defined.

(** ** Stacks of images *)

Section Stack.

Variables nrows ncols ndims : nat.

Local Abbreviation k := (block_size nrows ncols ndims).
Local Abbreviation channel_samples := (channel_samples nrows ncols ndims).
Local Abbreviation channel_mean := (channel_mean nrows ncols ndims).

Lemma channel_samples_app_l (x1 x2 : list byte) (n1 i d : nat) :
  length x1 = n1 * k → i < n1 → d < ndims →
  channel_samples (x1 ++ x2) i d = channel_samples x1 i d.
Proof.
  intros Hlen Hi Hd. apply channel_samples_ext. intros p Hp.
  apply lookup_app_l. rewrite Hlen.
  assert (p * ndims + d < k) by offsets.
  nia.
Qed.

Lemma channel_samples_app_r (x1 x2 : list byte) (n1 i d : nat) :
  length x1 = n1 * k →
  channel_samples (x1 ++ x2) (n1 + i) d = channel_samples x2 i d.
Proof.
  intros Hlen. unfold hic.channel_samples. apply list_fmap_ext.
  intros _ p _. cbn.
  rewrite lookup_app_r by (rewrite Hlen; nia).
  do 2 f_equal. rewrite Hlen. nia.
Qed.

Lemma means_matrix_app (x1 x2 : list byte) (n1 n2 : nat) :
  length x1 = n1 * k →
  means_matrix (n1 + n2) nrows ncols ndims (x1 ++ x2)
  = means_matrix n1 nrows ncols ndims x1 ++ means_matrix n2 nrows ncols ndims x2.
Proof.
  intros Hlen. unfold means_matrix.
  rewrite seq_app, fmap_app. f_equal.
  - apply list_fmap_ext. intros j i [-> Hi]%lookup_seq.
    apply list_fmap_ext. intros j' d [-> Hd]%lookup_seq.
    unfold hic.channel_mean. by rewrite (channel_samples_app_l _ _ n1).
  - assert (seq (0 + n1) n2 = Nat.add n1 <$> seq 0 n2) as ->
      by (rewrite fmap_add_seq; f_equal; lia).
    rewrite <- list_fmap_compose.
    apply list_fmap_ext. intros _ i _. cbn.
    apply list_fmap_ext. intros _ d _.
    unfold hic.channel_mean. by rewrite channel_samples_app_r.
Qed.

End Stack.

(** **** Property X9.
    Stacking composes: when a buffer of exactly [n1] images is followed by
    a buffer that holds [n2] images, [_mean] for [n1 + n2] images on the
    two put together gives the means of the first followed by the means of
    the second. *)
Theorem mean_stack_app (n1 n2 nrows ncols ndims : nat) (x1 x2 : list byte) :
  length x1 = n1 * (nrows * ncols * ndims) →
  n2 * (nrows * ncols * ndims) ≤ length x2 →
  ∃ m1 m2,
    _mean n1 nrows ncols ndims x1 = Ok m1 ∧
    _mean n2 nrows ncols ndims x2 = Ok m2 ∧
    _mean (n1 + n2) nrows ncols ndims (x1 ++ x2) = Ok (m1 ++ m2).
Proof.
  intros Hl1 Hl2.
  exists (means_matrix n1 nrows ncols ndims x1), (means_matrix n2 nrows ncols ndims x2).
  split; [apply mean_Ok; unfold block_size; lia|].
  split; [by apply mean_Ok|].
  rewrite mean_Ok.
  - by rewrite means_matrix_app.
  - rewrite length_app. unfold block_size. nia.
Qed.

Lemma mean_stack_app_witness :
  ∃ m1 m2,
    _mean 1 1 1 2 [x01; x02] = Ok m1 ∧
    _mean 2 1 1 2 [x03; x04; x05; x06; x07] = Ok m2 ∧
    _mean 3 1 1 2 [x01; x02; x03; x04; x05; x06; x07] = Ok (m1 ++ m2).
Proof.
  apply (mean_stack_app 1 2 1 1 2 [x01; x02] [x03; x04; x05; x06; x07]);
    [reflexivity|simpl; lia].
Defined.

(** ** Bounds of [_perDim] *)

Lemma perDim_in_range (flat : list byte) (r c d : nat) (img : np.ndarray3) d0 :
  np.reshape flat r c d = Ok img → d0 < d →
  ∃ v, (ch ← np.channel img d0; mret (np.mean ch)) = Ok v.
Proof.
  intros Hre Hd0.
  destruct (reshape_channel _ _ _ _ _ d0 Hre Hd0) as (ch & -> & _).
  by eexists.
Qed.

Lemma perDim_out_of_range (flat : list byte) (r c d : nat) (img : np.ndarray3) d0 :
  np.reshape flat r c d = Ok img → d ≤ d0 →
  (ch ← np.channel img d0; mret (np.mean ch)) = Raise IndexError.
Proof.
  intros Hre Hd0. unfold np.channel.
  rewrite (reshape_shape _ _ _ _ _ Hre).
  rewrite decide_False by lia. done.
Qed.

(** **** Property X10.
    [_perDim] on an image reshaped to [d] channels, asked for [m <= d]
    channels, returns the means of the first [m] channels: the first [m]
    entries of what it returns for all [d]. *)
Theorem perDim_fewer_channels (flat : list byte) (r c d : nat)
    (img : np.ndarray3) (m : nat) :
  np.reshape flat r c d = Ok img →
  m ≤ d →
  ∃ full,
    _perDim img d = Ok full ∧ length full = d ∧
    _perDim img m = Ok (take m full).
Proof.
  intros Hre Hm.
  set (g := fun d0 => match np.channel img d0 with
                      | Ok ch => np.mean ch
                      | Raise _ => NaN
                      end).
  assert (∀ d0, d0 < d →
            (ch ← np.channel img d0; mret (np.mean ch)) = Ok (g d0)) as Hin.
  { intros d0 Hd0. unfold g.
    destruct (reshape_channel _ _ _ _ _ d0 Hre Hd0) as (ch & -> & _). done. }
  exists (g <$> seq 0 d).
  split; [apply mapM_Ok_fmap; intros d0 [_ Hd0]%elem_of_seq; by apply Hin|].
  split; [by rewrite length_fmap, length_seq|].
  rewrite <- fmap_take, take_seq, Nat.min_l by done.
  apply mapM_Ok_fmap. intros d0 [_ Hd0]%elem_of_seq. apply Hin. lia.
Qed.

Lemma perDim_fewer_channels_witness :
  ∃ full,
    _perDim (np.mk_ndarray3 (1, 2, 2) [[[x01; x02]; [x03; x04]]]) 2 = Ok full ∧
    length full = 2 ∧
    _perDim (np.mk_ndarray3 (1, 2, 2) [[[x01; x02]; [x03; x04]]]) 1
    = Ok (take 1 full).
Proof.
  apply (perDim_fewer_channels [x01; x02; x03; x04] 1 2 2
           (np.mk_ndarray3 (1, 2, 2) [[[x01; x02]; [x03; x04]]]) 1);
    [reflexivity|lia].
Defined.

(** **** Property X11.
    [_perDim] on an image reshaped to [d] channels, asked for more than [d]
    channels, raises the [IndexError] of the channel indexing. *)
Theorem perDim_too_many_channels (flat : list byte) (r c d : nat)
    (img : np.ndarray3) (m : nat) :
  np.reshape flat r c d = Ok img →
  d < m →
  _perDim img m = Raise IndexError.
Proof.
  intros Hre Hm. apply mapM_Raise.
  - intros d0 _. destruct (decide (d0 < d)).
    + right. by eapply perDim_in_range.
    + left. eapply perDim_out_of_range; [done|lia].
  - exists d. split; [apply elem_of_seq; lia|].
    by eapply perDim_out_of_range.
Qed.

Lemma perDim_too_many_channels_witness :
  _perDim (np.mk_ndarray3 (1, 2, 2) [[[x01; x02]; [x03; x04]]]) 3 = Raise IndexError.
Proof.
  apply (perDim_too_many_channels [x01; x02; x03; x04] 1 2 2
           (np.mk_ndarray3 (1, 2, 2) [[[x01; x02]; [x03; x04]]]) 3);
    [reflexivity|lia].
Defined.

(** ** The path handed to [binaryFiles] *)

Lemma basename_id (p : string) : py.rfind "/" p = (-1)%Z → py.basename p = p.
Proof. intros H. unfold py.basename. by rewrite H. Qed.

Lemma basename_after_slash (dir s : string) :
  py.basename (String.append dir (String "/" s)) = py.basename s.
Proof.
  assert (py.basename (String "/" s) = py.basename s) as Hhead.
  { rewrite basename_cons.
    pose proof (rfind_range "/" s) as Hrange.
    destruct (0 <=? py.rfind "/" s)%Z eqn:Hr; [done|].
    apply Z.leb_gt in Hr. cbn. symmetry. apply basename_id. lia. }
  assert (∀ dir, (0 ≤ py.rfind "/" (String.append dir (String "/" s)))%Z) as Hslash.
  { clear Hhead. intros dir'. induction dir' as [|a dir' IH].
    - cbn [String.append py.rfind].
      pose proof (rfind_range "/" s).
      destruct (0 <=? py.rfind "/" s)%Z; cbn; lia.
    - cbn [String.append py.rfind].
      destruct (0 <=? _)%Z eqn:Hr; [lia|]. apply Z.leb_gt in Hr. lia. }
  induction dir as [|a dir IH]; [done|].
  cbn [String.append]. rewrite basename_cons.
  destruct (0 <=? _)%Z eqn:Hr; [done|].
  apply Z.leb_gt in Hr. specialize (Hslash dir). lia.
Qed.

Lemma endswith_split (p : string) (c : ascii) :
  py.endswith p c = true → ∃ d, p = String.append d (String c EmptyString).
Proof.
  induction p as [|a rest IH]; [discriminate|].
  destruct rest as [|b rest].
  - cbn. intros ->%Ascii.eqb_eq. by exists EmptyString.
  - intros H. destruct IH as [d Hd]; [done|].
    exists (String a d). cbn [String.append]. by rewrite <- Hd.
Qed.

Lemma append_assoc (a b c : string) :
  String.append (String.append a b) c = String.append a (String.append b c).
Proof. induction a as [|x a IH]; [done|]. cbn. by rewrite IH. Qed.

(** The basename of a joined path is the basename of its last component. *)
Lemma basename_join (a b : string) :
  py.basename (py.join a b) = py.basename b.
Proof.
  unfold py.join.
  destruct (py.startswith b "/"); [done|].
  destruct (String.eqb a EmptyString) eqn:Ha.
  { apply String.eqb_eq in Ha as ->. done. }
  destruct (py.endswith a "/") eqn:He; cbn [orb].
  - apply endswith_split in He as [d ->].
    rewrite append_assoc. cbn [String.append]. apply basename_after_slash.
  - cbn [String.append]. apply basename_after_slash.
Qed.

(** **** Property X12.
    When a file name is given (a non-empty string), the path [_getImgRDD]
    asks for has the basename of that file name, whatever the directory and
    whatever the extension, which is not used. *)
Theorem imgpair_path_fname (path f fname_ext : string) :
  f ≠ EmptyString →
  py.basename (imgpair_path path (Some f) fname_ext) = py.basename f.
Proof.
  intros Hf. destruct f as [|a f]; [done|].
  cbn [imgpair_path]. apply basename_join.
Qed.

Lemma imgpair_path_fname_witness :
  py.basename (imgpair_path "/user/x/imgs" (Some "a.raw"%string) "bin") = "a.raw"%string.
Proof.
  apply (imgpair_path_fname "/user/x/imgs" "a.raw" "bin"). discriminate.
Defined.

(** **** Property X13.
    When no file name is given ([None], or the empty string, which counts
    as false), the path [_getImgRDD] asks for has the basename
    ["*." + fname_ext], for an extension that holds no slash, whatever the
    directory. *)
Theorem imgpair_path_wildcard (path : string) (fname : option string)
    (fname_ext : string) :
  fname = None ∨ fname = Some EmptyString →
  py.rfind "/" fname_ext = (-1)%Z →
  py.basename (imgpair_path path fname fname_ext) = String.append "*." fname_ext.
Proof.
  intros Hf Hext.
  assert (imgpair_path path fname fname_ext
          = py.join path (String.append "*." fname_ext)) as ->.
  { by destruct Hf as [-> | ->]. }
  rewrite basename_join. apply basename_id.
  cbn. by rewrite Hext.
Qed.

Lemma imgpair_path_wildcard_witness :
  py.basename (imgpair_path "/user/x/imgs/" (Some EmptyString) "raw") = "*.raw"%string.
Proof.
  apply (imgpair_path_wildcard "/user/x/imgs/" (Some EmptyString) "raw");
    [right; reflexivity|reflexivity].
Defined.

(** ** Decoding longer buffers, and the range of the columns *)

(** **** Property X14.
    For a buffer of at least [n * nrows * ncols * ndims] samples, decoding
    and flattening the images again, in stack order, gives exactly the
    first [n * nrows * ncols * ndims] samples: the images cover that prefix
    without gap or overlap, and nothing after it. *)
Theorem decode_ravel_prefix (n nrows ncols ndims : nat) (x : list byte) :
  n * (nrows * ncols * ndims) ≤ length x →
  ∃ blocks,
    decode n nrows ncols ndims x = Ok blocks ∧
    concat (np.ravel <$> blocks) = take (n * (nrows * ncols * ndims)) x.
Proof.
  intros Hlen.
  destruct (decode_Ok n nrows ncols ndims x Hlen) as [blocks Hd].
  pose proof (decode_length _ _ _ _ _ _ Hd) as Hn.
  exists blocks. split; [done|].
  rewrite <- chunks_concat. f_equal.
  apply list_eq. intros i. destruct (decide (i < n)) as [Hi|Hi].
  - destruct (decode_lookup_lt _ _ _ _ _ _ i Hd Hi) as (img & Himg & Hb).
    rewrite list_lookup_fmap, Himg, chunks_lookup by done. cbn.
    f_equal. by eapply block_ravel.
  - rewrite !lookup_ge_None_2; [done| |].
    + rewrite chunks_length. lia.
    + rewrite length_fmap. lia.
Qed.

Lemma decode_ravel_prefix_witness :
  ∃ blocks,
    decode 2 1 1 2 [x01; x02; x03; x04; x05] = Ok blocks ∧
    concat (np.ravel <$> blocks) = [x01; x02; x03; x04].
Proof.
  apply (decode_ravel_prefix 2 1 1 2 [x01; x02; x03; x04; x05]).
  simpl. lia.
Defined.

(** **** Property X15.
    Whenever a row is produced for a file under a geometry with at least
    one row and one column, its three columns are numbers between 0 and
    255, never [nan]. *)
Theorem df_columns_in_range (n nrows ncols ndims : nat)
    (imgpair : list (string * list byte)) (df : list (result Row)) (j : nat)
    (ident : string) (x : list byte) (row : Row) :
  imgpair !! j = Some (ident, x) →
  mean n nrows ncols ndims (new imgpair) true = AsDF df →
  df !! j = Some (Ok row) →
  0 < nrows → 0 < ncols →
  ∃ q0 q1 q2,
    CH0 row = Val q0 ∧ CH1 row = Val q1 ∧ CH2 row = Val q2 ∧
    (0 <= q0)%Q ∧ (q0 <= 255)%Q ∧
    (0 <= q1)%Q ∧ (q1 <= 255)%Q ∧
    (0 <= q2)%Q ∧ (q2 <= 255)%Q.
Proof.
  intros Hj Hdf Hrow Hr Hc.
  rewrite (mean_asdf_lookup _ _ _ _ _ _ _ _ _ Hdf Hj) in Hrow.
  injection Hrow as Hrow.
  apply df_row_Ok_inv in Hrow as (_ & _ & _ & ->). cbn [CH0 CH1 CH2].
  assert (∀ i, ∃ q, channel_mean nrows ncols ndims x i 1 = Val q ∧
                    (0 <= q)%Q ∧ (q <= 255)%Q) as Hch.
  { intros i.
    destruct (mean_flat_nonempty (channel_samples nrows ncols ndims x i 1))
      as (q & Hq & _ & Hlo & Hhi); [rewrite channel_samples_length; nia|].
    by exists q. }
  destruct (Hch 0) as (q0 & -> & ? & ?).
  destruct (Hch 1) as (q1 & -> & ? & ?).
  destruct (Hch 2) as (q2 & -> & ? & ?).
  exists q0, q1, q2. by repeat split.
Qed.

Lemma df_columns_in_range_witness :
  ∃ q0 q1 q2,
    Val 2 = Val q0 ∧ Val 4 = Val q1 ∧ Val 6 = Val q2 ∧
    (0 <= q0)%Q ∧ (q0 <= 255)%Q ∧
    (0 <= q1)%Q ∧ (q1 <= 255)%Q ∧
    (0 <= q2)%Q ∧ (q2 <= 255)%Q.
Proof.
  apply (df_columns_in_range 3 1 1 2
           [("a/b/f.raw"%string, [x01; x02; x03; x04; x05; x06])]
           [Ok (mk_Row "f.raw" (Val 2) (Val 4) (Val 6))] 0
           "a/b/f.raw" [x01; x02; x03; x04; x05; x06]
           (mk_Row "f.raw" (Val 2) (Val 4) (Val 6)));
    [reflexivity|reflexivity|reflexivity|lia|lia].
Defined.
